(** * rename_files.py: batch renaming of [*.adoc.docx] files to [*.docx]

    A shallow embedding of [src/SuffixModification/rename_files.py].

    - Python [str] values are lists of characters ([list ascii]); the
      patterns handled by the script are plain ASCII, and in UTF-8 an ASCII
      character never occurs inside a multi-byte sequence, so searching and
      replacing on bytes agrees with searching on code points.
    - [os.path.dirname], [os.path.basename] and [os.path.join] follow
      CPython's [posixpath] module (separator [/]).
    - The logger, the filesystem and the clock are threaded through a small
      state-and-exception monad; the operating system is an interface
      ([OS]) so that the generic results hold for any filesystem. *)

From Equations Require Import Equations.
From Stdlib Require Import List Ascii Arith Lia Bool Permutation.
From Stdlib Require String DecimalString.
Import String.StringSyntax Ascii.AsciiSyntax.
Delimit Scope string_scope with string.
Import ListNotations.

(** ** Python strings *)

Module Str.

Definition str := list ascii.

(** A literal. *)
Definition lit (s : String.string) : str := String.list_ascii_of_string s.
Arguments lit s%_string.

(** [strip_prefix pre s] is [Some rest] when [s = pre ++ rest]. *)
Fixpoint strip_prefix (pre s : str) : option str :=
  match pre, s with
  | [], _ => Some s
  | _ :: _, [] => None
  | a :: pre', b :: s' => if Ascii.eqb a b then strip_prefix pre' s' else None
  end.

(** [s.startswith(pre)] *)
Definition startswith (s pre : str) : bool :=
  match strip_prefix pre s with Some _ => true | None => false end.

(** [s.endswith(suf)] *)
Definition endswith (s suf : str) : bool := startswith (rev s) (rev suf).

Fixpoint take_while (f : ascii -> bool) (s : str) : str :=
  match s with
  | [] => []
  | c :: s' => if f c then c :: take_while f s' else []
  end.

Fixpoint drop_while (f : ascii -> bool) (s : str) : str :=
  match s with
  | [] => []
  | c :: s' => if f c then drop_while f s' else s
  end.

Definition inspect {A} (a : A) : {b | a = b} := exist _ a eq_refl.

(** [s.replace(old, new)]: every occurrence of [old], found by scanning
    from the left and resuming after each match, is replaced.  For the
    empty pattern Python inserts [new] before every character and at the
    end. *)
Equations? replace (old new s : str) : str by wf (length s) lt :=
  replace [] new s := new ++ flat_map (fun c => c :: new) s;
  replace (o :: old') new [] := [];
  replace (o :: old') new (c :: s') with inspect (strip_prefix (o :: old') (c :: s')) := {
    | exist _ (Some rest) _ := new ++ replace (o :: old') new rest;
    | exist _ None _ := c :: replace (o :: old') new s' }.
Proof.
  assert (shorter : forall pre t r, strip_prefix pre t = Some r -> length r <= length t).
  { induction pre as [|a pre IH]; intros [|b t] r; simpl; intros E;
      try discriminate; try (injection E as <-; simpl; lia).
    destruct (Ascii.eqb a b); [|discriminate].
    specialize (IH _ _ E). lia. }
  destruct (Ascii.eqb o c); [|discriminate].
  apply shorter in e. simpl. lia.
Qed.

(** [s.replace(old, new, 1)]: only the leftmost occurrence is replaced.
    This is the reading "the first occurrence is replaced"; the script does
    not call it, it is here to be compared with [replace]. *)
Fixpoint replace_first (old new s : str) : str :=
  match strip_prefix old s with
  | Some rest => new ++ rest
  | None => match s with
            | [] => []
            | c :: s' => c :: replace_first old new s'
            end
  end.

End Str.
Import Str.

(** ** [os.path] (posixpath) *)

Module Path.

Definition sep : ascii := "/"%char.
Definition is_sep (c : ascii) : bool := Ascii.eqb c sep.
Definition not_sep (c : ascii) : bool := negb (is_sep c).

(** With [i = p.rfind(sep) + 1]: [head_part p] is [p[:i]] and
    [basename p] is [p[i:]]. *)
Definition head_part (p : str) : str := rev (drop_while not_sep (rev p)).

(** [os.path.basename] *)
Definition basename (p : str) : str := rev (take_while not_sep (rev p)).

(** [head.rstrip(sep)] *)
Definition rstrip_sep (h : str) : str := rev (drop_while is_sep (rev h)).

(** [head == sep*len(head)] *)
Definition all_sep (h : str) : bool := forallb is_sep h.

Definition nonempty (s : str) : bool :=
  match s with [] => false | _ :: _ => true end.

(** [os.path.dirname]:
    [if head and head != sep*len(head): head = head.rstrip(sep)]. *)
Definition dirname (p : str) : str :=
  let head := head_part p in
  if nonempty head && negb (all_sep head) then rstrip_sep head else head.

(** [os.path.join(a, b)] for two arguments. *)
Definition join (a b : str) : str :=
  if startswith b [sep] then b
  else if negb (nonempty a) || endswith a [sep] then a ++ b
  else a ++ sep :: b.

End Path.
Import Path.

(** ** The name transform *)

Definition old_suffix : str := lit ".adoc.docx".
Definition new_suffix : str := lit ".docx".

(** [generate_new_filename] (lines 39-45). *)
Definition generate_new_filename (old_filepath : str) : str :=
  let directory := dirname old_filepath in
  let old_filename := basename old_filepath in
  let new_filename := replace old_suffix new_suffix old_filename in
  join directory new_filename.

(** ** Log records

    [logging.basicConfig] installs a file handler and a stream handler; both
    receive the same records in the same order, so the log is one list.  A
    message is kept structured; [render] gives the text of the f-string. *)

Inductive level := INFO | ERROR.

Inductive message :=
| MsgWalkError (e : str)
| MsgPreviewBegin
| MsgPreviewCount (n : nat)
| MsgWillRename (old_filepath new_filepath : str)
| MsgPreviewEnd
| MsgExecuteBegin
| MsgRenamed (old_filepath new_filepath : str)
| MsgRenameFailed (old_filepath e : str)
| MsgExecuteEnd
| MsgSuccessCount (n : nat)
| MsgErrorCount (n : nat)
| MsgNoDirectory (directory : str)
| MsgNotADirectory (directory : str)
| MsgStart (directory : str)
| MsgStartTime (t : str)
| MsgNothingFound
| MsgEndTime (t : str).

Definition decimal (n : nat) : str :=
  String.list_ascii_of_string (DecimalString.NilEmpty.string_of_uint (Nat.to_uint n)).

Definition render (m : message) : str :=
  match m with
  | MsgWalkError e => lit "遍历目录时出错: " ++ e
  | MsgPreviewBegin => lit "=== 预览模式 ==="
  | MsgPreviewCount n => lit "找到 " ++ decimal n ++ lit " 个需要修改的文件:"
  | MsgWillRename o n => lit "将修改: " ++ o ++ lit " -> " ++ n
  | MsgPreviewEnd => lit "=== 预览完成 ==="
  | MsgExecuteBegin => lit "=== 执行模式 ==="
  | MsgRenamed o n => lit "成功修改: " ++ o ++ lit " -> " ++ n
  | MsgRenameFailed o e => lit "修改失败 " ++ o ++ lit ": " ++ e
  | MsgExecuteEnd => lit "=== 执行完成 ==="
  | MsgSuccessCount n => lit "成功修改: " ++ decimal n ++ lit " 个文件"
  | MsgErrorCount n => lit "修改失败: " ++ decimal n ++ lit " 个文件"
  | MsgNoDirectory d => lit "目录不存在: " ++ d
  | MsgNotADirectory d => lit "路径不是目录: " ++ d
  | MsgStart d => lit "开始处理目录: " ++ d
  | MsgStartTime t => lit "开始时间: " ++ t
  | MsgNothingFound => lit "未找到需要修改的文件"
  | MsgEndTime t => lit "结束时间: " ++ t
  end.

Definition record : Type := level * message.

(** ** The operating system *)

(** An exception that [except Exception] catches, represented by its
    text [str(e)]. *)
Definition exn := str.

(** One triple [(root, dirs, files)] yielded by [os.walk]. *)
Record walk_item := WalkItem {
  walk_root : str;
  walk_dirs : list str;
  walk_files : list str }.

(** What the script asks of the system.  [os_walk w d] is the run of the
    generator [os.walk(d)]: the triples it yields and, when the generator
    stops by raising, the exception.  [os_rename] returns the new
    filesystem, or the exception it raises. *)
Class OS (W : Type) := {
  os_path_exists : W -> str -> bool;
  os_path_isdir : W -> str -> bool;
  os_walk : W -> str -> list walk_item * option exn;
  os_rename : W -> str -> str -> W + exn;
  datetime_now : W -> str }.

(** Calls that reach the filesystem, recorded in issue order. *)
Inductive syscall :=
| SysWalk (directory : str)
| SysRename (old_filepath new_filepath : str).

(** ** State and exceptions *)

Inductive result (A : Type) :=
| Ok (a : A)
| Raise (e : exn).
Arguments Ok {A} a.
Arguments Raise {A} e.

Section Script.

Context {W : Type} {os : OS W}.

(** The filesystem, the records handed to the logger so far, and the
    filesystem calls issued so far. *)
Record state := State {
  fs : W;
  log : list record;
  calls : list syscall }.

Definition M (A : Type) : Type := state -> result A * state.

Definition ret {A} (a : A) : M A := fun s => (Ok a, s).

Definition bind {A B} (m : M A) (k : A -> M B) : M B :=
  fun s => match m s with
           | (Ok a, s') => k a s'
           | (Raise e, s') => (Raise e, s')
           end.

(** [try: body except Exception as e: handler(e)] *)
Definition try_except {A} (body : M A) (handler : exn -> M A) : M A :=
  fun s => match body s with
           | (Ok a, s') => (Ok a, s')
           | (Raise e, s') => handler e s'
           end.

Definition emit (r : record) : M unit :=
  fun s => (Ok tt, State (fs s) (log s ++ [r]) (calls s)).

Definition logger_info (m : message) : M unit := emit (INFO, m).
Definition logger_error (m : message) : M unit := emit (ERROR, m).

Definition issue (c : syscall) (s : state) : state :=
  State (fs s) (log s) (calls s ++ [c]).

Definition path_exists (p : str) : M bool := fun s => (Ok (os_path_exists (fs s) p), s).
Definition path_isdir (p : str) : M bool := fun s => (Ok (os_path_isdir (fs s) p), s).
Definition now : M str := fun s => (Ok (datetime_now (fs s)), s).

(** [os.rename(src, dst)] *)
Definition rename (src dst : str) : M unit :=
  fun s => match os_rename (fs s) src dst with
           | inl w' => (Ok tt, State w' (log s) (calls s ++ [SysRename src dst]))
           | inr e => (Raise e, issue (SysRename src dst) s)
           end.

(** [for item in os.walk(directory): acc = body(acc, item)], for a loop
    body that only updates local variables: the body runs on every triple
    the generator yields, then the generator's exception, if any,
    propagates out of the loop. *)
Definition for_walk {A} (directory : str) (body : A -> walk_item -> A) (acc : A) : M A :=
  fun s => let '(items, raised) := os_walk (fs s) directory in
           let acc' := fold_left body items acc in
           match raised with
           | None => (Ok acc', issue (SysWalk directory) s)
           | Some e => (Raise e, issue (SysWalk directory) s)
           end.

End Script.

Declare Scope script_scope.
Delimit Scope script_scope with script.
Notation "x <- m ;; k" := (bind m (fun x => k))
  (at level 61, m at next level, right associativity) : script_scope.
Notation "m ;; k" := (bind m (fun _ => k))
  (at level 61, right associativity) : script_scope.
Local Open Scope script_scope.

Section Functions.

Context {W : Type} {os : OS W}.

(** The inner loop of [traverse_directory] (lines 30-33), for one triple. *)
Definition scan_files (walk_root : str) (files_to_process : list str) (files : list str)
  : list str :=
  fold_left
    (fun files_to_process file =>
       let file_path := join walk_root file in
       if endswith file old_suffix then files_to_process ++ [file_path]
       else files_to_process)
    files files_to_process.

Definition scan_item (files_to_process : list str) (item : walk_item) : list str :=
  scan_files (walk_root item) files_to_process (walk_files item).

(** [traverse_directory] (lines 25-37). *)
Definition traverse_directory (directory : str) : M (W := W) (list str) :=
  try_except
    (files_to_process <- for_walk directory scan_item [] ;;
     ret files_to_process)
    (fun e => logger_error (MsgWalkError e) ;; ret []).

(** The loop of [preview_rename] (lines 52-54). *)
Fixpoint preview_loop (files_to_process : list str) : M (W := W) unit :=
  match files_to_process with
  | [] => ret tt
  | old_filepath :: rest =>
      let new_filepath := generate_new_filename old_filepath in
      logger_info (MsgWillRename old_filepath new_filepath) ;;
      preview_loop rest
  end.

(** [preview_rename] (lines 47-56). *)
Definition preview_rename (files_to_process : list str) : M (W := W) unit :=
  logger_info MsgPreviewBegin ;;
  logger_info (MsgPreviewCount (length files_to_process)) ;;
  preview_loop files_to_process ;;
  logger_info MsgPreviewEnd.

(** The loop of [execute_rename] (lines 64-72); the two counters are the
    loop's local variables. *)
Fixpoint execute_loop (files_to_process : list str) (success_count error_count : nat)
  : M (W := W) (nat * nat) :=
  match files_to_process with
  | [] => ret (success_count, error_count)
  | old_filepath :: rest =>
      let new_filepath := generate_new_filename old_filepath in
      counts <- try_except
                  (rename old_filepath new_filepath ;;
                   logger_info (MsgRenamed old_filepath new_filepath) ;;
                   ret (success_count + 1, error_count))
                  (fun e =>
                     logger_error (MsgRenameFailed old_filepath e) ;;
                     ret (success_count, error_count + 1)) ;;
      execute_loop rest (fst counts) (snd counts)
  end.

(** [execute_rename] (lines 58-76). *)
Definition execute_rename (files_to_process : list str) : M (W := W) unit :=
  logger_info MsgExecuteBegin ;;
  counts <- execute_loop files_to_process 0 0 ;;
  logger_info MsgExecuteEnd ;;
  logger_info (MsgSuccessCount (fst counts)) ;;
  logger_info (MsgErrorCount (snd counts)).

(** [main] (lines 78-110) after [parse_args]: [directory] is the
    positional argument and [preview] the [--preview] flag. *)
Definition main (directory : str) (preview : bool) : M (W := W) unit :=
  found <- path_exists directory ;;
  if negb found then logger_error (MsgNoDirectory directory)
  else
    isdir <- path_isdir directory ;;
    if negb isdir then logger_error (MsgNotADirectory directory)
    else
      logger_info (MsgStart directory) ;;
      t0 <- now ;;
      logger_info (MsgStartTime t0) ;;
      files_to_process <- traverse_directory directory ;;
      match files_to_process with
      | [] => logger_info MsgNothingFound
      | _ :: _ =>
          (if preview then preview_rename files_to_process
           else execute_rename files_to_process) ;;
          t1 <- now ;;
          logger_info (MsgEndTime t1)
      end.

End Functions.

(** ** Directory trees and [os.walk]

    A directory is the list of its entries in the order [os.scandir]
    reports them.  Every directory of a tree can be listed, and an entry
    that is not a directory is a file. *)

Module Tree.

#[warnings="-register-all"]
Inductive node :=
| File (name : str)
| Dir (name : str) (children : list node).

Definition dir_names (entries : list node) : list str :=
  flat_map (fun n => match n with Dir name _ => [name] | File _ => [] end) entries.

Definition file_names (entries : list node) : list str :=
  flat_map (fun n => match n with File name => [name] | Dir _ _ => [] end) entries.

(** [os.walk(top)], top-down: the triple of [top], then the walk of each
    subdirectory [os.path.join(top, name)] in listing order. *)
Fixpoint walk_node (top : str) (n : node) : list walk_item :=
  match n with
  | File _ => []
  | Dir name children =>
      let new_path := join top name in
      WalkItem new_path (dir_names children) (file_names children)
        :: flat_map (walk_node new_path) children
  end.

Definition walk (top : str) (entries : list node) : list walk_item :=
  WalkItem top (dir_names entries) (file_names entries)
    :: flat_map (walk_node top) entries.

(** [file_in top entries p name]: [p] is the path, built the way [os.walk]
    and the script build it, of a file called [name] somewhere in the tree
    whose root [top] lists [entries]. *)
Inductive file_in : str -> list node -> str -> str -> Prop :=
| file_here top entries name :
    In (File name) entries ->
    file_in top entries (join top name) name
| file_below top entries d children p name :
    In (Dir d children) entries ->
    file_in (join top d) children p name ->
    file_in top entries p name.

End Tree.
Import Tree.

(** ** A reference filesystem

    A POSIX-like filesystem over a tree rooted at [/], used to run the
    script on concrete inputs.  Paths are resolved component by component
    from the root (the working directory is [/]); [fault] lets the walk
    stop with an exception after a number of triples. *)

Module TreeFS.

Record world := World {
  root : list node;
  fault : option (nat * exn);
  clock : str }.

Definition str_eqb (a b : str) : bool :=
  if list_eq_dec Ascii.ascii_dec a b then true else false.

Fixpoint split_sep (p : str) : list str :=
  match p with
  | [] => [[]]
  | c :: p' =>
      if is_sep c then [] :: split_sep p'
      else match split_sep p' with
           | [] => [[c]]
           | x :: xs => (c :: x) :: xs
           end
  end.

(** The components of a path; empty components and [.] are skipped. *)
Definition components (p : str) : list str :=
  filter (fun c => nonempty c && negb (str_eqb c (lit "."))) (split_sep p).

Definition node_name (n : node) : str :=
  match n with File name => name | Dir name _ => name end.

Definition find_entry (name : str) (entries : list node) : option node :=
  find (fun n => str_eqb (node_name n) name) entries.

Fixpoint resolve (comps : list str) (entries : list node) : option node :=
  match comps with
  | [] => Some (Dir [] entries)
  | c :: cs =>
      match find_entry c entries, cs with
      | None, _ => None
      | Some n, [] => Some n
      | Some (Dir _ children), _ :: _ => resolve cs children
      | Some (File _), _ :: _ => None
      end
  end.

Definition lookup (w : world) (p : str) : option node :=
  match p with
  | [] => None
  | _ :: _ => resolve (components p) (root w)
  end.

Definition remove_entry (name : str) (entries : list node) : list node :=
  filter (fun n => negb (str_eqb (node_name n) name)) entries.

Definition set_name (name : str) (n : node) : node :=
  match n with File _ => File name | Dir _ children => Dir name children end.

(** Apply [f] to the entries of the directory reached by [comps]. *)
Fixpoint modify (comps : list str) (f : list node -> list node) (entries : list node)
  : list node :=
  match comps with
  | [] => f entries
  | c :: cs =>
      map (fun n => match n with
                    | Dir name children =>
                        if str_eqb name c then Dir name (modify cs f children) else n
                    | File _ => n
                    end) entries
  end.

Definition parent_of (comps : list str) : list str := removelast comps.
Definition leaf_of (comps : list str) : str := last comps [].

Definition quote (p : str) : str := lit "'" ++ p ++ lit "'".

Definition os_error (text src dst : str) : exn :=
  text ++ lit ": " ++ quote src ++ lit " -> " ++ quote dst.

(** [rename(2)]: a file replaces an existing file of the target name; a
    directory is only moved to a name that is free. *)
Definition tree_rename (w : world) (src dst : str) : world + exn :=
  let sc := components src in
  let dc := components dst in
  match lookup w src, sc with
  | None, _ | _, [] => inr (os_error (lit "[Errno 2] No such file or directory") src dst)
  | Some n, _ :: _ =>
      match dst, dc, resolve (parent_of dc) (root w) with
      | _ :: _, _ :: _, Some (Dir _ _) =>
          let moved :=
            modify (parent_of dc)
                   (fun es => remove_entry (leaf_of dc) es ++ [set_name (leaf_of dc) n])
                   (modify (parent_of sc) (remove_entry (leaf_of sc)) (root w)) in
          match n, lookup w dst with
          | File _, Some (Dir _ _) =>
              inr (os_error (lit "[Errno 21] Is a directory") src dst)
          | Dir _ _, Some (File _) =>
              inr (os_error (lit "[Errno 20] Not a directory") src dst)
          | Dir _ _, Some (Dir _ _) =>
              inr (os_error (lit "[Errno 39] Directory not empty") src dst)
          | _, _ =>
              if list_eq_dec (list_eq_dec Ascii.ascii_dec) sc dc then inl w
              else inl (World moved (fault w) (clock w))
          end
      | _, _, _ => inr (os_error (lit "[Errno 2] No such file or directory") src dst)
      end
  end.

(** [os.walk] ignores a directory it cannot list, so a path that is not a
    directory yields nothing. *)
Definition tree_walk (w : world) (top : str) : list walk_item * option exn :=
  let items := match lookup w top with
               | Some (Dir _ children) => walk top children
               | _ => []
               end in
  match fault w with
  | None => (items, None)
  | Some (n, e) => (firstn n items, Some e)
  end.

#[export] Instance tree_os : OS world := {
  os_path_exists w p := match lookup w p with Some _ => true | None => false end;
  os_path_isdir w p := match lookup w p with Some (Dir _ _) => true | _ => false end;
  os_walk := tree_walk;
  os_rename := tree_rename;
  datetime_now := clock }.

Definition start (w : world) : state (W := world) := State w [] [].

End TreeFS.
Import TreeFS.

(** ** Vocabulary of the statements *)

Definition adoc : str := lit ".adoc".

(** [old] occurs somewhere in [s]. *)
Definition occurs (old s : str) : Prop := exists a b, s = a ++ old ++ b.

(** The test of [traverse_directory] (line 32), on the filename of a path. *)
Definition selected (p : str) : bool := endswith (basename p) old_suffix.

(** A head that is empty or ends with a separator. *)
Definition closed_head (h : str) : Prop := h = [] \/ exists h', h = h' ++ [sep].

(** The three shapes of a directory part: empty, separators only, or
    ending in a character that is not a separator. *)
Inductive dir_shape : str -> Prop :=
| shape_empty : dir_shape []
| shape_root d : d <> [] -> all_sep d = true -> dir_shape d
| shape_plain h c : is_sep c = false -> dir_shape (h ++ [c]).

(** What [traverse_directory] collects from the triples of a walk. *)
Definition candidates (items : list walk_item) : list str :=
  flat_map (fun item => map (join (walk_root item))
                            (filter (fun file => endswith file old_suffix)
                                    (walk_files item))) items.

(** [listed items p name]: some triple of [items] lists the file [name],
    and [p] is its path as the script builds it. *)
Definition listed (items : list walk_item) (p name : str) : Prop :=
  exists item, In item items /\ In name (walk_files item) /\
               p = join (walk_root item) name.

(** The records of the loop of [preview_rename]. *)
Definition preview_lines (files : list str) : list record :=
  map (fun old => (INFO, MsgWillRename old (generate_new_filename old))) files.

(** The renames that [execute_rename] asks for. *)
Definition rename_calls (files : list str) : list syscall :=
  map (fun old => SysRename old (generate_new_filename old)) files.

Definition is_renamed (r : record) : bool :=
  match r with (INFO, MsgRenamed _ _) => true | _ => false end.

Definition is_rename_failed (r : record) : bool :=
  match r with (ERROR, MsgRenameFailed _ _) => true | _ => false end.

(** Records that only [preview_rename] and [execute_rename] emit. *)
Definition is_mode_record (r : record) : bool :=
  match snd r with
  | MsgPreviewBegin | MsgPreviewCount _ | MsgWillRename _ _ | MsgPreviewEnd
  | MsgExecuteBegin | MsgRenamed _ _ | MsgRenameFailed _ _ | MsgExecuteEnd
  | MsgSuccessCount _ | MsgErrorCount _ => true
  | _ => false
  end.

(** The tree of the worked example: [/tmp/r] holds [a/report.adoc.docx],
    [b/notes.txt] and [c/summary.adoc.docx]. *)
Definition sample_entries : list node :=
  [Dir (lit "a") [File (lit "report.adoc.docx")];
   Dir (lit "b") [File (lit "notes.txt")];
   Dir (lit "c") [File (lit "summary.adoc.docx")]].

Definition sample_world (entries : list node) : world :=
  World [Dir (lit "tmp") [Dir (lit "r") entries]] None (lit "2024-01-01 00:00:00").

(** The same tree, with a walk that raises after two triples. *)
Definition faulty_world : world :=
  World [Dir (lit "tmp") [Dir (lit "r") sample_entries]]
        (Some (2, lit "maximum recursion depth exceeded"))
        (lit "2024-01-01 00:00:00").

(** ** Vocabulary of the whole-run statements *)

(** The two tests at the start of [main] (lines 86-92). *)
Definition valid_root {W} {os : OS W} (w : W) (directory : str) : bool :=
  os_path_exists w directory && os_path_isdir w directory.

(** The value [traverse_directory] returns on the filesystem [w]. *)
Definition found {W} {os : OS W} (w : W) (directory : str) : list str :=
  match os_walk w directory with
  | (items, None) => candidates items
  | (_, Some _) => []
  end.

(** The pairs [old -> new] announced by preview records. *)
Definition announced (l : list record) : list (str * str) :=
  flat_map (fun r => match r with
                     | (INFO, MsgWillRename o n) => [(o, n)]
                     | _ => []
                     end) l.

(** The pairs [(src, dst)] of the rename calls. *)
Definition requested (c : list syscall) : list (str * str) :=
  flat_map (fun c => match c with
                     | SysRename src dst => [(src, dst)]
                     | SysWalk _ => []
                     end) c.

(** A name without separator, as a directory listing gives it. *)
Definition sep_free (name : str) : Prop := forallb not_sep name = true.

(** How many files of a tree have a name ending in [.adoc.docx]. *)
Fixpoint count_node (n : node) : nat :=
  match n with
  | File name => if endswith name old_suffix then 1 else 0
  | Dir _ children => list_sum (map count_node children)
  end.

Definition count_matching (entries : list node) : nat :=
  list_sum (map count_node entries).

(** [fresh s] is the filesystem of [s] with an empty log and no call;
    [reframe s r] puts the outcome [r] of a run started from [fresh s]
    after the log and the calls of [s]. *)
Definition fresh {W} (s : state (W := W)) : state (W := W) := State (fs s) [] [].

Definition reframe {W} {A} (s : state (W := W)) (r : result A * state (W := W))
  : result A * state (W := W) :=
  (fst r, State (fs (snd r)) (log s ++ log (snd r)) (calls s ++ calls (snd r))).

(** The record [traverse_directory] adds to the log. *)
Definition walk_log {W} {os : OS W} (w : W) (directory : str) : list record :=
  match os_walk w directory with
  | (_, None) => []
  | (_, Some e) => [(ERROR, MsgWalkError e)]
  end.

(** The lines and the final filesystem of the loop of [execute_rename],
    read off the filesystem alone. *)
Fixpoint rename_all {W} {os : OS W} (w : W) (files : list str) : W * list record :=
  match files with
  | [] => (w, [])
  | old :: rest =>
      match os_rename w old (generate_new_filename old) with
      | inl w' =>
          let (w'', lines) := rename_all w' rest in
          (w'', (INFO, MsgRenamed old (generate_new_filename old)) :: lines)
      | inr e =>
          let (w'', lines) := rename_all w rest in
          (w'', (ERROR, MsgRenameFailed old e) :: lines)
      end
  end.

(** * Properties *)

(** ** Strings *)

Section StrFacts.

Lemma strip_prefix_spec pre s rest :
  strip_prefix pre s = Some rest <-> s = pre ++ rest.
Proof.
  revert s; induction pre as [|a pre IH]; intros s; simpl.
  - split; congruence.
  - destruct s as [|b s]; [split; discriminate|].
    destruct (Ascii.eqb_spec a b) as [->|ne].
    + rewrite IH. split; congruence.
    + split; [discriminate | congruence].
Qed.

Lemma strip_prefix_app pre rest : strip_prefix pre (pre ++ rest) = Some rest.
Proof. now apply strip_prefix_spec. Qed.

Lemma startswith_spec s pre :
  startswith s pre = true <-> exists rest, s = pre ++ rest.
Proof.
  unfold startswith. destruct (strip_prefix pre s) as [rest|] eqn:E.
  - apply strip_prefix_spec in E. split; eauto.
  - split; [discriminate|]. intros [rest ->].
    rewrite strip_prefix_app in E. discriminate.
Qed.

Lemma endswith_spec s suf :
  endswith s suf = true <-> exists pre, s = pre ++ suf.
Proof.
  unfold endswith. rewrite startswith_spec. split.
  - intros [rest E]. exists (rev rest).
    rewrite <- (rev_involutive s), E, rev_app_distr, rev_involutive. reflexivity.
  - intros [pre ->]. exists (rev pre). apply rev_app_distr.
Qed.

Lemma endswith_app pre suf : endswith (pre ++ suf) suf = true.
Proof. apply endswith_spec. eauto. Qed.

Lemma replace_cons o old' new c s' :
  replace (o :: old') new (c :: s') =
  match strip_prefix (o :: old') (c :: s') with
  | Some rest => new ++ replace (o :: old') new rest
  | None => c :: replace (o :: old') new s'
  end.
Proof.
  rewrite replace_equation_3. unfold inspect.
  assert (G : forall x (e : strip_prefix (o :: old') (c :: s') = x),
             replace_unfold_clause_3 o old' new c s' (exist _ x e) =
             match x with
             | Some rest => new ++ replace (o :: old') new rest
             | None => c :: replace (o :: old') new s'
             end).
  { intros [rest|] e; simp replace; reflexivity. }
  apply G.
Qed.

Variables old new : str.
Hypothesis old_nonempty : old <> [].

Lemma replace_nil : replace old new [] = [].
Proof. destruct old; [congruence|]. now simp replace. Qed.

(** An occurrence at the front is replaced and the scan resumes after it. *)
Lemma replace_hit rest :
  replace old new (old ++ rest) = new ++ replace old new rest.
Proof.
  destruct old as [|o old']; [congruence|].
  change ((o :: old') ++ rest) with (o :: (old' ++ rest)).
  rewrite replace_cons.
  change (o :: (old' ++ rest)) with ((o :: old') ++ rest).
  now rewrite strip_prefix_app.
Qed.

(** Otherwise the first character is kept. *)
Lemma replace_miss c s :
  strip_prefix old (c :: s) = None ->
  replace old new (c :: s) = c :: replace old new s.
Proof.
  destruct old as [|o old']; [congruence|].
  intros E. now rewrite replace_cons, E.
Qed.

(** Induction along the scan of [replace]. *)
Lemma replace_scan_ind (Q : str -> str -> Prop) :
  Q [] [] ->
  (forall rest, Q rest (replace old new rest) ->
                Q (old ++ rest) (new ++ replace old new rest)) ->
  (forall c s, strip_prefix old (c :: s) = None ->
               Q s (replace old new s) ->
               Q (c :: s) (c :: replace old new s)) ->
  forall s, Q s (replace old new s).
Proof.
  intros Hnil Hhit Hmiss s.
  remember (length s) as n eqn:Hn. revert s Hn.
  induction n as [n IH] using lt_wf_ind. intros s Hn.
  destruct s as [|c s].
  - rewrite replace_nil. exact Hnil.
  - destruct (strip_prefix old (c :: s)) as [rest|] eqn:E.
    + apply strip_prefix_spec in E. rewrite E, replace_hit.
      apply Hhit. apply (IH (length rest)); [|reflexivity].
      subst n. rewrite E, length_app.
      destruct old; [congruence|simpl; lia].
    + rewrite replace_miss by exact E. apply Hmiss; [exact E|].
      apply (IH (length s)); [subst n; simpl; lia | reflexivity].
Qed.

Lemma replace_Forall (R : ascii -> Prop) s :
  Forall R new -> Forall R s -> Forall R (replace old new s).
Proof.
  intros Hnew. pattern s, (replace old new s). apply replace_scan_ind.
  - constructor.
  - intros rest IH H. apply Forall_app in H as [_ H].
    apply Forall_app. split; auto.
  - intros c t _ IH H. inversion H; subst. constructor; auto.
Qed.

(** A tail that no occurrence of [old] can reach into is transformed on
    its own. *)
Lemma replace_app_tail tail :
  (forall c u, strip_prefix old (c :: u) = None ->
               strip_prefix old (c :: u ++ tail) = None) ->
  forall s, replace old new (s ++ tail) = replace old new s ++ replace old new tail.
Proof.
  intros Htail s. pattern s, (replace old new s). apply replace_scan_ind.
  - reflexivity.
  - intros rest IH. rewrite <- !app_assoc, replace_hit, IH. reflexivity.
  - intros c u E IH. simpl. rewrite replace_miss by auto. now rewrite IH.
Qed.

End StrFacts.

(** ** The suffix pair *)


Section Suffix.

Lemma old_suffix_nonempty : old_suffix <> [].
Proof. discriminate. Qed.

Ltac spell :=
  unfold old_suffix, new_suffix, adoc, lit in *;
  cbn [String.list_ascii_of_string] in *.

Ltac scan :=
  cbn [strip_prefix app];
  repeat match goal with
         | |- context [Ascii.eqb ?a ?b] =>
             destruct (Ascii.eqb_spec a b) as [?|?]; [try discriminate; subst|]
         end;
  try reflexivity; try discriminate; try congruence.

(** No occurrence of [.adoc.docx] starts before a tail [.adoc.docx] or
    [.adoc] and runs into it. *)
Lemma no_straddle tail c u :
  tail = old_suffix \/ tail = adoc ->
  strip_prefix old_suffix (c :: u) = None ->
  strip_prefix old_suffix (c :: u ++ tail) = None.
Proof.
  intros Ht H. revert H. spell.
  do 9 (destruct u as [|? u]; [destruct Ht; subst tail; scan|]).
  scan.
Qed.

Lemma replace_old_suffix s :
  replace old_suffix new_suffix (s ++ old_suffix) =
  replace old_suffix new_suffix s ++ new_suffix.
Proof.
  rewrite replace_app_tail.
  - reflexivity.
  - exact old_suffix_nonempty.
  - intros c u. apply no_straddle. now left.
Qed.

Lemma replace_adoc s :
  replace old_suffix new_suffix (s ++ adoc) =
  replace old_suffix new_suffix s ++ adoc.
Proof.
  rewrite replace_app_tail.
  - reflexivity.
  - exact old_suffix_nonempty.
  - intros c u. apply no_straddle. now right.
Qed.

(** A name that [replace] changed contains the five characters of [.docx]. *)
Lemma replace_same_or_long s :
  replace old_suffix new_suffix s = s \/ 5 <= length (replace old_suffix new_suffix s).
Proof.
  pattern s, (replace old_suffix new_suffix s).
  apply replace_scan_ind; [exact old_suffix_nonempty | | |].
  - now left.
  - intros rest _. right. rewrite length_app. simpl. lia.
  - intros c t _ [E|L]; [left; congruence | right; simpl; lia].
Qed.

Lemma endswith_adoc_replace s :
  endswith (replace old_suffix new_suffix s) adoc = true -> endswith s adoc = true.
Proof.
  pattern s, (replace old_suffix new_suffix s).
  apply replace_scan_ind; [exact old_suffix_nonempty | | |].
  - discriminate.
  - intros rest IH H.
    assert (E : endswith rest adoc = true).
    { apply IH. apply endswith_spec.
      apply endswith_spec in H as [pre H].
      apply app_eq_app in H as [l [[H1 H2]|[H1 H2]]]; [|eauto].
      unfold new_suffix, adoc, lit in H1, H2 |- *.
      cbn [String.list_ascii_of_string] in H1, H2 |- *.
      do 6 (destruct pre as [|? pre];
            [simpl in H1; inversion H1; subst; simpl in H2;
             first [discriminate H2 | exists []; symmetry; exact H2]|]).
      discriminate H1. }
    apply endswith_spec in E as [pre ->].
    rewrite app_assoc. apply endswith_app.
  - intros c t _ IH H. apply endswith_spec in H as [pre H].
    destruct pre as [|c' pre].
    + destruct (replace_same_or_long t) as [E|L].
      * rewrite E in H. rewrite H. reflexivity.
      * apply (f_equal (@length _)) in H. simpl in H. lia.
    + simpl in H. injection H as <- H.
      assert (E : endswith t adoc = true).
      { apply IH, endswith_spec. eauto. }
      apply endswith_spec in E as [q ->].
      change (endswith ((c :: q) ++ adoc) adoc = true). apply endswith_app.
Qed.

(** The transformed name ends in [.adoc.docx] exactly when the name ended
    in [.adoc.adoc.docx]. *)
Lemma endswith_replace_iff name :
  endswith name old_suffix = true ->
  (endswith (replace old_suffix new_suffix name) old_suffix = true <->
   endswith name (adoc ++ old_suffix) = true).
Proof.
  intros H. apply endswith_spec in H as [x ->].
  rewrite replace_old_suffix. split; intros H.
  - apply endswith_spec in H as [pre H].
    change old_suffix with (adoc ++ new_suffix) in H.
    rewrite app_assoc in H. apply app_inv_tail in H.
    assert (E : endswith x adoc = true).
    { apply endswith_adoc_replace, endswith_spec. eauto. }
    apply endswith_spec in E as [q ->].
    rewrite <- app_assoc. apply endswith_app.
  - apply endswith_spec in H as [pre H].
    rewrite app_assoc in H. apply app_inv_tail in H. subst x.
    rewrite replace_adoc, <- app_assoc.
    change (adoc ++ new_suffix) with old_suffix. apply endswith_app.
Qed.

End Suffix.

(** ** Paths *)

Section PathFacts.

Lemma take_drop_while f s : take_while f s ++ drop_while f s = s.
Proof.
  induction s as [|c s IH]; simpl; [reflexivity|].
  destruct (f c); simpl; congruence.
Qed.

Lemma take_while_forallb f s : forallb f (take_while f s) = true.
Proof.
  induction s as [|c s IH]; simpl; [reflexivity|].
  destruct (f c) eqn:E; simpl; [now rewrite E|reflexivity].
Qed.

Lemma take_while_app_all f s t :
  forallb f s = true -> take_while f (s ++ t) = s ++ take_while f t.
Proof.
  induction s as [|c s IH]; simpl; [reflexivity|].
  intros H. apply andb_true_iff in H as [-> H]. now rewrite IH.
Qed.

Lemma drop_while_app_all f s t :
  forallb f s = true -> drop_while f (s ++ t) = drop_while f t.
Proof.
  induction s as [|c s IH]; simpl; [reflexivity|].
  intros H. apply andb_true_iff in H as [-> H]. now rewrite IH.
Qed.

Lemma forallb_rev f (s : str) : forallb f (rev s) = forallb f s.
Proof.
  induction s as [|c s IH]; simpl; [reflexivity|].
  rewrite forallb_app, IH. simpl. rewrite andb_true_r. apply andb_comm.
Qed.

Lemma head_basename p : head_part p ++ basename p = p.
Proof.
  unfold head_part, basename. rewrite <- rev_app_distr, take_drop_while.
  apply rev_involutive.
Qed.

(** The filename component holds no separator. *)
Lemma basename_no_sep p : forallb not_sep (basename p) = true.
Proof. unfold basename. rewrite forallb_rev. apply take_while_forallb. Qed.


Lemma split_head_name h n :
  closed_head h -> forallb not_sep n = true ->
  head_part (h ++ n) = h /\ basename (h ++ n) = n.
Proof.
  intros Hh Hn. unfold head_part, basename. rewrite rev_app_distr.
  rewrite <- forallb_rev in Hn.
  rewrite drop_while_app_all, take_while_app_all by exact Hn.
  destruct Hh as [->|[h' ->]].
  - simpl. rewrite app_nil_r, rev_involutive. auto.
  - rewrite rev_app_distr. simpl.
    rewrite app_nil_r, !rev_involutive. auto.
Qed.


Lemma drop_while_shape f s :
  drop_while f s = [] \/ exists c t, drop_while f s = c :: t /\ f c = false.
Proof.
  induction s as [|c s IH]; simpl; [now left|].
  destruct (f c) eqn:E; [exact IH|right; eauto].
Qed.

Lemma drop_while_nil f s : drop_while f s = [] -> forallb f s = true.
Proof.
  induction s as [|c s IH]; simpl; [reflexivity|].
  destruct (f c); [exact IH|discriminate].
Qed.

Lemma dirname_shape p : dir_shape (dirname p).
Proof.
  unfold dirname. destruct (head_part p) as [|c h]; cbn [nonempty andb].
  - constructor.
  - destruct (all_sep (c :: h)) eqn:A; cbn [negb].
    + apply shape_root; [discriminate|exact A].
    + unfold rstrip_sep.
      destruct (drop_while_shape is_sep (rev (c :: h))) as [N|[x [t [D F]]]].
      * apply drop_while_nil in N. rewrite forallb_rev in N.
        unfold all_sep in A. congruence.
      * rewrite D. simpl. now apply shape_plain.
Qed.

Lemma endswith_sep_last h c : endswith (h ++ [c]) [sep] = is_sep c.
Proof.
  unfold endswith, startswith. rewrite rev_app_distr.
  cbn [rev app strip_prefix].
  unfold is_sep. rewrite (Ascii.eqb_sym sep c). now destruct (Ascii.eqb c sep).
Qed.

Lemma all_sep_last d : d <> [] -> all_sep d = true -> exists h, d = h ++ [sep].
Proof.
  intros Hd Ha. destruct (exists_last Hd) as [h [c ->]].
  unfold all_sep in Ha. rewrite forallb_app in Ha. simpl in Ha.
  apply andb_true_iff in Ha as [_ Ha]. rewrite andb_true_r in Ha.
  unfold is_sep in Ha. apply Ascii.eqb_eq in Ha. subst c. eauto.
Qed.

Lemma startswith_no_sep n : forallb not_sep n = true -> startswith n [sep] = false.
Proof.
  destruct n as [|c n]; [reflexivity|]. cbn [forallb]. intros H.
  apply andb_true_iff in H as [H _]. unfold not_sep, is_sep in H.
  unfold startswith. cbn [strip_prefix]. rewrite Ascii.eqb_sym.
  now destruct (Ascii.eqb c sep).
Qed.

Lemma dirname_split h n :
  closed_head h -> forallb not_sep n = true ->
  dirname (h ++ n) = (if nonempty h && negb (all_sep h) then rstrip_sep h else h)
  /\ basename (h ++ n) = n.
Proof.
  intros Hh Hn. unfold dirname.
  destruct (split_head_name h n Hh Hn) as [-> ->]. auto.
Qed.

(** Joining a directory part and a name without separator, then splitting
    again, gives back both. *)
Lemma dirname_basename_join d n :
  dir_shape d -> forallb not_sep n = true ->
  dirname (join d n) = d /\ basename (join d n) = n.
Proof.
  intros Hd Hn. unfold join. rewrite (startswith_no_sep _ Hn).
  destruct Hd as [|d Hne Hall|h c Hc].
  - cbn [nonempty negb orb].
    destruct (@dirname_split [] n) as [-> ->]; [now left|exact Hn|]. auto.
  - destruct (all_sep_last d Hne Hall) as [h ->].
    rewrite endswith_sep_last. replace (is_sep sep) with true by reflexivity.
    rewrite orb_true_r.
    destruct (@dirname_split (h ++ [sep]) n) as [-> ->]; [right; eauto|exact Hn|].
    rewrite Hall, andb_false_r. auto.
  - rewrite endswith_sep_last, Hc.
    assert (Ne : nonempty (h ++ [c]) = true) by now destruct h.
    rewrite Ne. cbn [negb orb].
    change ((h ++ [c]) ++ sep :: n) with ((h ++ [c]) ++ [sep] ++ n).
    rewrite app_assoc.
    destruct (@dirname_split ((h ++ [c]) ++ [sep]) n) as [-> ->];
      [right; eauto|exact Hn|].
    split; [|reflexivity].
    assert (N1 : nonempty ((h ++ [c]) ++ [sep]) = true) by now destruct h.
    assert (N2 : all_sep ((h ++ [c]) ++ [sep]) = false).
    { unfold all_sep. rewrite !forallb_app. cbn [forallb]. rewrite Hc.
      cbn [andb]. now rewrite andb_false_r. }
    rewrite N1, N2. cbn [negb andb]. unfold rstrip_sep.
    rewrite !rev_app_distr. cbn [rev app drop_while].
    replace (is_sep sep) with true by reflexivity. rewrite Hc.
    change (rev (c :: rev h) = h ++ [c]). cbn [rev]. now rewrite rev_involutive.
Qed.

End PathFacts.

(** ** The script, for any operating system *)

Section ScriptFacts.

Context {W : Type} {os : OS W}.

Let state := state (W := W).


Lemma scan_files_spec top acc files :
  scan_files top acc files =
  acc ++ map (join top) (filter (fun file => endswith file old_suffix) files).
Proof.
  unfold scan_files. revert acc. induction files as [|f files IH]; intros acc; simpl.
  - now rewrite app_nil_r.
  - rewrite IH. destruct (endswith f old_suffix); simpl; [|reflexivity].
    now rewrite <- app_assoc.
Qed.

Lemma scan_items_spec items acc :
  fold_left scan_item items acc = acc ++ candidates items.
Proof.
  revert acc. induction items as [|it items IH]; intros acc; simpl.
  - now rewrite app_nil_r.
  - rewrite IH. unfold scan_item. rewrite scan_files_spec.
    now rewrite <- app_assoc.
Qed.

(** The two ways [traverse_directory] can end. *)
Lemma traverse_directory_run directory (s : state) :
  traverse_directory directory s =
  match os_walk (fs s) directory with
  | (items, None) => (Ok (candidates items), issue (SysWalk directory) s)
  | (items, Some e) =>
      (Ok [], State (fs s) (log s ++ [(ERROR, MsgWalkError e)])
                    (calls s ++ [SysWalk directory]))
  end.
Proof.
  unfold traverse_directory, try_except, bind, for_walk, ret.
  destruct (os_walk (fs s) directory) as [items [e|]]; simpl.
  - reflexivity.
  - now rewrite scan_items_spec.
Qed.


Lemma preview_loop_run files (s : state) :
  preview_loop files s = (Ok tt, State (fs s) (log s ++ preview_lines files) (calls s)).
Proof.
  revert s. induction files as [|old files IH]; intros s; simpl.
  - unfold ret. rewrite app_nil_r. now destruct s.
  - unfold bind, logger_info, emit. rewrite IH. simpl.
    now rewrite <- app_assoc.
Qed.

Lemma preview_rename_run files (s : state) :
  preview_rename files s =
  (Ok tt, State (fs s)
                (log s ++ [(INFO, MsgPreviewBegin); (INFO, MsgPreviewCount (length files))]
                       ++ preview_lines files ++ [(INFO, MsgPreviewEnd)])
                (calls s)).
Proof.
  unfold preview_rename, bind, logger_info, emit. rewrite preview_loop_run. simpl.
  now rewrite <- !app_assoc.
Qed.

(** One turn of the loop of [execute_rename], when the rename succeeds and
    when it raises. *)
Lemma execute_loop_success old rest sc ec (s : state) w' :
  os_rename (fs s) old (generate_new_filename old) = inl w' ->
  execute_loop (old :: rest) sc ec s =
  execute_loop rest (sc + 1) ec
    (State w' (log s ++ [(INFO, MsgRenamed old (generate_new_filename old))])
              (calls s ++ [SysRename old (generate_new_filename old)])).
Proof.
  intros E. simpl. unfold bind, try_except, rename. rewrite E. reflexivity.
Qed.

Lemma execute_loop_failure old rest sc ec (s : state) e :
  os_rename (fs s) old (generate_new_filename old) = inr e ->
  execute_loop (old :: rest) sc ec s =
  execute_loop rest sc (ec + 1)
    (State (fs s) (log s ++ [(ERROR, MsgRenameFailed old e)])
                  (calls s ++ [SysRename old (generate_new_filename old)])).
Proof.
  intros E. simpl. unfold bind, try_except, rename. rewrite E. reflexivity.
Qed.




(** The loop never raises; it issues one rename per candidate, adds one
    record per candidate, and each record moves exactly one counter. *)
Lemma execute_loop_total files : forall sc ec (s : state),
  exists sc' ec' s' lines,
    execute_loop files sc ec s = (Ok (sc', ec'), s') /\
    log s' = log s ++ lines /\
    calls s' = calls s ++ rename_calls files /\
    length lines = length files /\
    sc' = sc + length (filter is_renamed lines) /\
    ec' = ec + length (filter is_rename_failed lines) /\
    Forall (fun r => is_renamed r = negb (is_rename_failed r)) lines.
Proof.
  induction files as [|old files IH]; intros sc ec s.
  - exists sc, ec, s, []. simpl. rewrite !app_nil_r.
    repeat split; auto.
  - destruct (os_rename (fs s) old (generate_new_filename old)) as [w'|e] eqn:E.
    + rewrite (execute_loop_success _ _ _ _ _ _ E).
      edestruct IH as (sc' & ec' & s' & lines & R & L & C & N & S1 & S2 & F).
      rewrite R. exists sc', ec', s', ((INFO, MsgRenamed old (generate_new_filename old)) :: lines).
      rewrite L, C. cbn [log calls fs]. rewrite <- !app_assoc. simpl.
      repeat split; auto; try lia.
    + rewrite (execute_loop_failure _ _ _ _ _ _ E).
      edestruct IH as (sc' & ec' & s' & lines & R & L & C & N & S1 & S2 & F).
      rewrite R. exists sc', ec', s', ((ERROR, MsgRenameFailed old e) :: lines).
      rewrite L, C. cbn [log calls fs]. rewrite <- !app_assoc. simpl.
      repeat split; auto; try lia.
Qed.

Lemma execute_loop_app before after : forall sc ec (s : state) sc1 ec1 s1,
  execute_loop before sc ec s = (Ok (sc1, ec1), s1) ->
  execute_loop (before ++ after) sc ec s = execute_loop after sc1 ec1 s1.
Proof.
  induction before as [|old before IH]; intros sc ec s sc1 ec1 s1 H.
  - simpl in *. unfold ret in H. congruence.
  - destruct (os_rename (fs s) old (generate_new_filename old)) as [w'|e] eqn:E.
    + cbn [app]. erewrite execute_loop_success in H by exact E.
      erewrite execute_loop_success by exact E. now apply IH.
    + cbn [app]. erewrite execute_loop_failure in H by exact E.
      erewrite execute_loop_failure by exact E. now apply IH.
Qed.

Lemma execute_rename_run files (s : state) :
  execute_rename files s =
  match execute_loop files 0 0
          (State (fs s) (log s ++ [(INFO, MsgExecuteBegin)]) (calls s)) with
  | (Ok (success_count, error_count), s') =>
      (Ok tt, State (fs s')
                    (log s' ++ [(INFO, MsgExecuteEnd);
                                (INFO, MsgSuccessCount success_count);
                                (INFO, MsgErrorCount error_count)])
                    (calls s'))
  | (Raise e, s') => (Raise e, s')
  end.
Proof.
  unfold execute_rename, bind, logger_info, emit. cbv beta iota.
  destruct (execute_loop files 0 0 _) as [[[sc ec]|e] s']; simpl.
  - now rewrite <- !app_assoc.
  - reflexivity.
Qed.

Lemma filter_partition_length (lines : list record) :
  Forall (fun r => is_renamed r = negb (is_rename_failed r)) lines ->
  length (filter is_renamed lines) + length (filter is_rename_failed lines) =
  length lines.
Proof.
  induction 1 as [|r lines H _ IH]; simpl; [reflexivity|].
  rewrite H. destruct (is_rename_failed r); simpl; lia.
Qed.

End ScriptFacts.

(** ** Walks of a directory tree *)

Section TreeFacts.

Lemma node_children_ind (P : node -> Prop) :
  (forall name, P (File name)) ->
  (forall name children, Forall P children -> P (Dir name children)) ->
  forall n, P n.
Proof.
  intros HF HD. fix IH 1. intros [name|name children].
  - apply HF.
  - apply HD. induction children as [|c cs IHcs]; constructor.
    + apply IH.
    + exact IHcs.
Qed.


Lemma in_file_names name entries : In name (file_names entries) <-> In (File name) entries.
Proof.
  unfold file_names. rewrite in_flat_map. split.
  - intros [[n|n c] [H1 H2]]; simpl in H2; [|contradiction].
    destruct H2 as [->|[]]. exact H1.
  - intros H. exists (File name). simpl. auto.
Qed.

Lemma listed_walk_entries (P := fun n => forall top p name,
    listed (walk_node top n) p name <->
    exists d children, n = Dir d children /\ file_in (join top d) children p name)
  entries top p name :
  Forall P entries ->
  (listed (walk top entries) p name <-> file_in top entries p name).
Proof.
  intros HP. rewrite Forall_forall in HP. unfold walk. split.
  - intros [item [[<-|Hin] [Hf ->]]].
    + simpl in *. apply file_here. now apply in_file_names.
    + apply in_flat_map in Hin as [n [Hn Hitem]].
      destruct (proj1 (HP n Hn top (join (walk_root item) name) name))
        as [d [children [-> Hfile]]].
      * exists item. auto.
      * eapply file_below; eauto.
  - intros H. inversion H as [? ? ? Hin|? ? d children ? ? Hin Hsub]; subst.
    + eexists. split; [left; reflexivity|]. simpl. split; [|reflexivity].
      now apply in_file_names.
    + destruct (proj2 (HP _ Hin top p name)) as [item [Hitem Hrest]].
      * eauto.
      * exists item. split; [|exact Hrest]. right.
        apply in_flat_map. eauto.
Qed.

Lemma listed_walk_node n : forall top p name,
  listed (walk_node top n) p name <->
  exists d children, n = Dir d children /\ file_in (join top d) children p name.
Proof.
  induction n as [f|d children IH] using node_children_ind; intros top p name.
  - split.
    + intros [item [[] _]].
    + intros [d [children [E _]]]. discriminate.
  - change (walk_node top (Dir d children)) with (walk (join top d) children).
    rewrite (listed_walk_entries children (join top d) p name IH). split.
    + intros H. eauto.
    + intros [d' [children' [E H]]]. injection E as <- <-. exact H.
Qed.

(** The triples of [os.walk] list exactly the files of the tree. *)
Lemma listed_walk top entries p name :
  listed (walk top entries) p name <-> file_in top entries p name.
Proof.
  apply listed_walk_entries. apply Forall_forall. intros n _.
  apply listed_walk_node.
Qed.

Lemma in_candidates items p :
  In p (candidates items) <->
  exists name, listed items p name /\ endswith name old_suffix = true.
Proof.
  unfold candidates, listed. rewrite in_flat_map. split.
  - intros [item [Hitem Hp]]. apply in_map_iff in Hp as [name [<- Hf]].
    apply filter_In in Hf as [Hf He]. exists name. eauto 6.
  - intros [name [[item [Hitem [Hf ->]]] He]]. exists item. split; [exact Hitem|].
    apply in_map. apply filter_In. auto.
Qed.

End TreeFacts.

(** ** The name transform *)


Section Transform.

Lemma replace_no_occurrence old new s :
  old <> [] -> ~ occurs old s -> replace old new s = s.
Proof.
  intros Hold. pattern s, (replace old new s).
  apply replace_scan_ind; [exact Hold | | |].
  - reflexivity.
  - intros rest _ H. exfalso. apply H. exists [], rest. reflexivity.
  - intros c t _ IH H. f_equal. apply IH. intros [a [b ->]].
    apply H. exists (c :: a), b. reflexivity.
Qed.

Lemma new_name_no_sep p :
  forallb not_sep (replace old_suffix new_suffix (basename p)) = true.
Proof.
  apply forallb_forall. apply Forall_forall.
  apply replace_Forall.
  - exact old_suffix_nonempty.
  - apply Forall_forall, forallb_forall. reflexivity.
  - apply Forall_forall, forallb_forall. apply basename_no_sep.
Qed.

(** The new path lies in the directory of the old one. *)
Lemma generate_new_filename_dirname p :
  dirname (generate_new_filename p) = dirname p.
Proof.
  unfold generate_new_filename.
  apply dirname_basename_join; [apply dirname_shape | apply new_name_no_sep].
Qed.

(** Its filename is the old filename after [replace]. *)
Lemma generate_new_filename_basename p :
  basename (generate_new_filename p) =
  replace old_suffix new_suffix (basename p).
Proof.
  unfold generate_new_filename.
  apply dirname_basename_join; [apply dirname_shape | apply new_name_no_sep].
Qed.

(** C1 as stated fails: with two occurrences of [.adoc.docx] in the
    filename, both are replaced, not only the first. *)
Lemma generate_new_filename_not_first_occurrence :
  let p := lit "docs/a.adoc.docx.adoc.docx" in
  endswith (basename p) old_suffix = true /\
  generate_new_filename p = lit "docs/a.docx.docx" /\
  join (dirname p) (replace_first old_suffix new_suffix (basename p))
    = lit "docs/a.docx.adoc.docx" /\
  basename (generate_new_filename p)
    <> replace_first old_suffix new_suffix (basename p).
Proof.
  repeat split; try reflexivity. vm_compute. discriminate.
Qed.

(** C1, amended: for a path whose filename ends with [.adoc.docx], the
    result lies in the same parent directory and its filename is the old
    filename with every occurrence of [.adoc.docx] replaced by [.docx]:
    the part before the trailing occurrence is transformed the same way
    and the trailing occurrence becomes [.docx]. *)
Theorem generate_new_filename_replaces_every_occurrence p :
  endswith (basename p) old_suffix = true ->
  dirname (generate_new_filename p) = dirname p /\
  basename (generate_new_filename p) = replace old_suffix new_suffix (basename p) /\
  exists x, basename p = x ++ old_suffix /\
            basename (generate_new_filename p) =
            replace old_suffix new_suffix x ++ new_suffix.
Proof.
  intros H. split; [apply generate_new_filename_dirname|].
  split; [apply generate_new_filename_basename|].
  apply endswith_spec in H as [x E]. exists x. split; [exact E|].
  rewrite generate_new_filename_basename, E. apply replace_old_suffix.
Qed.

Lemma generate_new_filename_replaces_every_occurrence_witness :
  let p := lit "/tmp/r/a.adoc.docx.adoc.docx" in
  endswith (basename p) old_suffix = true /\
  dirname (generate_new_filename p) = dirname p /\
  basename (generate_new_filename p) = replace old_suffix new_suffix (basename p) /\
  exists x, basename p = x ++ old_suffix /\
            basename (generate_new_filename p) =
            replace old_suffix new_suffix x ++ new_suffix.
Proof.
  split; [reflexivity|].
  apply (generate_new_filename_replaces_every_occurrence
           (lit "/tmp/r/a.adoc.docx.adoc.docx")).
  reflexivity.
Defined.


(** C2 as stated fails: [x.adoc.adoc.docx] becomes [x.adoc.docx], which
    still ends in [.adoc.docx]; after an execute run the next traversal
    selects it and the next run renames it again. *)
Lemma second_run_finds_candidate :
  let name := lit "x.adoc.adoc.docx" in
  let w := World [Dir (lit "r") [File name]] None (lit "2024-01-01 00:00:00") in
  let s1 := snd (main (lit "/r") false (start w)) in
  endswith name old_suffix = true /\
  generate_new_filename name = lit "x.adoc.docx" /\
  endswith (generate_new_filename name) old_suffix = true /\
  root (fs s1) = [Dir (lit "r") [File (lit "x.adoc.docx")]] /\
  fst (traverse_directory (lit "/r") s1) = Ok [lit "/r/x.adoc.docx"] /\
  calls (snd (main (lit "/r") false s1)) =
    calls s1 ++ [SysWalk (lit "/r");
                 SysRename (lit "/r/x.adoc.docx") (lit "/r/x.docx")].
Proof. repeat split; vm_compute; reflexivity. Qed.

(** On names alone: for paths whose filename ends in [.adoc.docx], the
    new path is selected again exactly when the old filename ended in
    [.adoc.adoc.docx]; so the new paths of a list of such paths are all
    rejected by the traversal's test exactly when none of the filenames
    ended in [.adoc.adoc.docx]. *)
Theorem renamed_files_selected_again files :
  Forall (fun p => selected p = true) files ->
  (forall p, In p files ->
     (selected (generate_new_filename p) = true <->
      endswith (basename p) (lit ".adoc.adoc.docx") = true)) /\
  (filter selected (map generate_new_filename files) = [] <->
   Forall (fun p => endswith (basename p) (lit ".adoc.adoc.docx") = false) files).
Proof.
  intros Hsel. rewrite Forall_forall in Hsel.
  assert (Hiff : forall p, In p files ->
            (selected (generate_new_filename p) = true <->
             endswith (basename p) (lit ".adoc.adoc.docx") = true)).
  { intros p Hp. unfold selected. rewrite generate_new_filename_basename.
    apply endswith_replace_iff. apply Hsel, Hp. }
  split; [exact Hiff|].
  rewrite Forall_forall. split.
  - intros Hnil p Hp.
    destruct (endswith (basename p) (lit ".adoc.adoc.docx")) eqn:E; [|reflexivity].
    apply (Hiff p Hp) in E.
    assert (Hin : In (generate_new_filename p)
                     (filter selected (map generate_new_filename files))).
    { apply filter_In. split; [now apply in_map|exact E]. }
    rewrite Hnil in Hin. destruct Hin.
  - intros Hall.
    destruct (filter selected (map generate_new_filename files)) as [|q l] eqn:E;
      [reflexivity|].
    assert (Hin : In q (filter selected (map generate_new_filename files)))
      by (rewrite E; now left).
    apply filter_In in Hin as [Hq Hs]. apply in_map_iff in Hq as [p [<- Hp]].
    apply (Hiff p Hp) in Hs. rewrite (Hall p Hp) in Hs. discriminate.
Qed.

Lemma renamed_files_selected_again_witness :
  let files := [lit "/r/a.adoc.docx"; lit "/r/x.adoc.adoc.docx"] in
  Forall (fun p => selected p = true) files /\
  (forall p, In p files ->
     (selected (generate_new_filename p) = true <->
      endswith (basename p) (lit ".adoc.adoc.docx") = true)) /\
  (filter selected (map generate_new_filename files) = [] <->
   Forall (fun p => endswith (basename p) (lit ".adoc.adoc.docx") = false) files).
Proof.
  assert (H : Forall (fun p => selected p = true)
                [lit "/r/a.adoc.docx"; lit "/r/x.adoc.adoc.docx"])
    by (repeat constructor).
  split; [exact H|].
  exact (renamed_files_selected_again
           [lit "/r/a.adoc.docx"; lit "/r/x.adoc.adoc.docx"] H).
Defined.

End Transform.

(** ** Traversal *)

Section Traversal.

Context {W : Type} {os : OS W}.

(** C3: when the walk of [directory] lists the tree [entries] and
    completes, the list returned by [traverse_directory] holds exactly the
    paths of the files of the tree, at any depth, whose name ends with
    [.adoc.docx]; directories and other files are never in it. *)
Theorem traverse_directory_selects_matching_files
    directory entries (s : state (W := W)) :
  os_walk (fs s) directory = (walk directory entries, None) ->
  exists files,
    traverse_directory directory s = (Ok files, issue (SysWalk directory) s) /\
    forall p, In p files <->
              exists name, file_in directory entries p name /\
                           endswith name old_suffix = true.
Proof.
  intros Hw. exists (candidates (walk directory entries)). split.
  - rewrite traverse_directory_run, Hw. reflexivity.
  - intros p. rewrite in_candidates. split.
    + intros [name [H E]]. exists name. split; [|exact E]. now apply listed_walk.
    + intros [name [H E]]. exists name. split; [|exact E]. now apply listed_walk.
Qed.

(** C6: when the walk raises, [traverse_directory] returns the empty list
    and logs the cause, whatever the walk had yielded before. *)
Theorem traverse_directory_walk_error directory items e (s : state (W := W)) :
  os_walk (fs s) directory = (items, Some e) ->
  traverse_directory directory s =
  (Ok [], State (fs s) (log s ++ [(ERROR, MsgWalkError e)])
                (calls s ++ [SysWalk directory])).
Proof.
  intros Hw. rewrite traverse_directory_run, Hw. reflexivity.
Qed.

End Traversal.




Lemma traverse_directory_selects_matching_files_witness :
  let s := start (sample_world sample_entries) in
  os_walk (fs s) (lit "/tmp/r") = (walk (lit "/tmp/r") sample_entries, None) /\
  exists files,
    traverse_directory (lit "/tmp/r") s = (Ok files, issue (SysWalk (lit "/tmp/r")) s) /\
    forall p, In p files <->
              exists name, file_in (lit "/tmp/r") sample_entries p name /\
                           endswith name old_suffix = true.
Proof.
  split; [reflexivity|].
  apply (traverse_directory_selects_matching_files
           (lit "/tmp/r") sample_entries (start (sample_world sample_entries))).
  reflexivity.
Defined.

Lemma traverse_directory_walk_error_witness :
  let s := start faulty_world in
  let e := lit "maximum recursion depth exceeded" in
  let items := firstn 2 (walk (lit "/tmp/r") sample_entries) in
  candidates items = [lit "/tmp/r/a/report.adoc.docx"] /\
  os_walk (fs s) (lit "/tmp/r") = (items, Some e) /\
  traverse_directory (lit "/tmp/r") s =
  (Ok [], State (fs s) (log s ++ [(ERROR, MsgWalkError e)])
                (calls s ++ [SysWalk (lit "/tmp/r")])).
Proof.
  split; [reflexivity|]. split; [reflexivity|].
  apply (traverse_directory_walk_error
           (lit "/tmp/r") (firstn 2 (walk (lit "/tmp/r") sample_entries))
           (lit "maximum recursion depth exceeded") (start faulty_world)).
  reflexivity.
Defined.

(** A directory is not selected, whatever its name. *)
Example directory_named_like_a_candidate :
  fst (traverse_directory (lit "/tmp/r")
         (start (sample_world [Dir (lit "old.adoc.docx") [File (lit "notes.txt")]])))
  = Ok [].
Proof. reflexivity. Qed.

(** ** Preview mode *)

Section Preview.

Context {W : Type} {os : OS W}.

(** C4, amended: for every candidate list, [preview_rename] leaves the
    filesystem as it is and issues no filesystem call; it logs the header,
    the number of candidates, one line [old -> generate_new_filename old]
    per candidate in order, and the footer.  For a candidate whose filename
    is [X.adoc.docx] with no occurrence of [.adoc.docx] inside [X], the new
    path is [X.docx] in the same directory. *)
Theorem preview_rename_reports_only files (s : state (W := W)) :
  preview_rename files s =
  (Ok tt, State (fs s)
                (log s ++ [(INFO, MsgPreviewBegin);
                           (INFO, MsgPreviewCount (length files))]
                       ++ preview_lines files ++ [(INFO, MsgPreviewEnd)])
                (calls s)) /\
  forall old x,
    In old files -> basename old = x ++ old_suffix -> ~ occurs old_suffix x ->
    In (INFO, MsgWillRename old (join (dirname old) (x ++ new_suffix)))
       (preview_lines files) /\
    dirname (join (dirname old) (x ++ new_suffix)) = dirname old /\
    basename (join (dirname old) (x ++ new_suffix)) = x ++ new_suffix.
Proof.
  split; [apply preview_rename_run|].
  intros old x Hin Hb Hx.
  assert (E : generate_new_filename old = join (dirname old) (x ++ new_suffix)).
  { unfold generate_new_filename. cbv zeta. rewrite Hb, replace_old_suffix.
    now rewrite (replace_no_occurrence _ _ _ old_suffix_nonempty Hx). }
  rewrite <- E. split; [|split].
  - unfold preview_lines. apply in_map_iff. eauto.
  - apply generate_new_filename_dirname.
  - rewrite generate_new_filename_basename, Hb, replace_old_suffix.
    now rewrite (replace_no_occurrence _ _ _ old_suffix_nonempty Hx).
Qed.

End Preview.

(** C4 as stated fails: the candidate [a.adoc.docx.adoc.docx] is
    [X.adoc.docx] for [X = a.adoc.docx], and the line reported for it maps
    it to [a.docx.docx], not to [X.docx]. *)
Lemma preview_reports_other_name :
  let w := sample_world [File (lit "a.adoc.docx.adoc.docx")] in
  let old := lit "/tmp/r/a.adoc.docx.adoc.docx" in
  let x := lit "/tmp/r/a.adoc.docx" in
  old = x ++ old_suffix /\
  log (snd (main (lit "/tmp/r") true (start w))) =
    [(INFO, MsgStart (lit "/tmp/r"));
     (INFO, MsgStartTime (lit "2024-01-01 00:00:00"));
     (INFO, MsgPreviewBegin);
     (INFO, MsgPreviewCount 1);
     (INFO, MsgWillRename old (lit "/tmp/r/a.docx.docx"));
     (INFO, MsgPreviewEnd);
     (INFO, MsgEndTime (lit "2024-01-01 00:00:00"))] /\
  lit "/tmp/r/a.docx.docx" <> x ++ new_suffix.
Proof.
  split; [reflexivity|]. split; [reflexivity|]. vm_compute. discriminate.
Qed.

Lemma not_occurs_short old s : length s < length old -> ~ occurs old s.
Proof.
  intros L [a [b E]]. apply (f_equal (@length _)) in E.
  rewrite !length_app in E. lia.
Qed.

Lemma preview_rename_reports_only_witness :
  let files := [lit "/tmp/r/a/report.adoc.docx"] in
  let s := start (sample_world sample_entries) in
  let old := lit "/tmp/r/a/report.adoc.docx" in
  let x := lit "report" in
  (In old files /\ basename old = x ++ old_suffix /\ ~ occurs old_suffix x) /\
  In (INFO, MsgWillRename old (lit "/tmp/r/a/report.docx")) (preview_lines files) /\
  fs (snd (preview_rename files s)) = fs s.
Proof.
  assert (H1 : In (lit "/tmp/r/a/report.adoc.docx") [lit "/tmp/r/a/report.adoc.docx"])
    by (left; reflexivity).
  assert (H2 : basename (lit "/tmp/r/a/report.adoc.docx") = lit "report" ++ old_suffix)
    by reflexivity.
  assert (H3 : ~ occurs old_suffix (lit "report"))
    by (apply not_occurs_short; simpl; lia).
  split; [auto|].
  destruct (preview_rename_reports_only
              [lit "/tmp/r/a/report.adoc.docx"] (start (sample_world sample_entries)))
    as [Hrun Hmap].
  split.
  - exact (proj1 (Hmap _ _ H1 H2 H3)).
  - rewrite Hrun. reflexivity.
Defined.

(** ** Execute mode *)

Section Execute.

Context {W : Type} {os : OS W}.

(** C5: if the rename of one candidate raises, the exception is caught in
    that turn of the loop: the filesystem is left as it was, the error is
    logged with the path and the cause, only the failure counter moves, and
    the loop goes on with the remaining candidates.  The whole run ends
    normally, having attempted the rename of every candidate in order. *)
Theorem execute_rename_failure_is_local
    before old after e sc ec (s s1 : state (W := W)) :
  execute_loop before 0 0 s = (Ok (sc, ec), s1) ->
  os_rename (fs s1) old (generate_new_filename old) = inr e ->
  execute_loop (before ++ old :: after) 0 0 s =
    execute_loop after sc (ec + 1)
      (State (fs s1) (log s1 ++ [(ERROR, MsgRenameFailed old e)])
             (calls s1 ++ [SysRename old (generate_new_filename old)])) /\
  exists s',
    execute_rename (before ++ old :: after) s = (Ok tt, s') /\
    calls s' = calls s ++ rename_calls (before ++ old :: after).
Proof.
  intros Hbefore Hfail. split.
  - rewrite (execute_loop_app before (old :: after) _ _ _ _ _ _ Hbefore).
    apply execute_loop_failure. exact Hfail.
  - rewrite execute_rename_run.
    destruct (execute_loop_total (before ++ old :: after) 0 0
                (State (fs s) (log s ++ [(INFO, MsgExecuteBegin)]) (calls s)))
      as (sc' & ec' & s' & lines & R & L & C & _).
    rewrite R. eexists. split; [reflexivity|]. exact C.
Qed.

(** C10: over a candidate list of length [n] the loop ends with
    [success_count + error_count = n]: it adds one record per candidate,
    [success_count] of them successes and [error_count] failures, and these
    are the two counts that [execute_rename] logs at the end. *)
Theorem execute_rename_counts_every_candidate files (s : state (W := W)) :
  exists success_count error_count s' lines,
    execute_loop files 0 0
      (State (fs s) (log s ++ [(INFO, MsgExecuteBegin)]) (calls s))
      = (Ok (success_count, error_count), s') /\
    success_count + error_count = length files /\
    log s' = (log s ++ [(INFO, MsgExecuteBegin)]) ++ lines /\
    length lines = length files /\
    success_count = length (filter is_renamed lines) /\
    error_count = length (filter is_rename_failed lines) /\
    execute_rename files s =
      (Ok tt, State (fs s')
                    (log s' ++ [(INFO, MsgExecuteEnd);
                                (INFO, MsgSuccessCount success_count);
                                (INFO, MsgErrorCount error_count)])
                    (calls s')).
Proof.
  destruct (execute_loop_total files 0 0
              (State (fs s) (log s ++ [(INFO, MsgExecuteBegin)]) (calls s)))
    as (sc & ec & s' & lines & R & L & C & N & S1 & S2 & F).
  exists sc, ec, s', lines. simpl in S1, S2, L.
  pose proof (filter_partition_length lines F) as P.
  repeat split; auto; try lia.
  rewrite execute_rename_run, R. reflexivity.
Qed.

End Execute.

(** ** The main function *)

Section Main.

Context {W : Type} {os : OS W}.

(** C7: if [directory] does not exist or is not a directory, the run logs
    one error and returns: the filesystem is untouched, and no walk and no
    rename is issued. *)
Theorem main_rejects_bad_root directory preview (s : state (W := W)) :
  os_path_exists (fs s) directory = false \/
  os_path_isdir (fs s) directory = false ->
  main directory preview s =
  (Ok tt,
   State (fs s)
         (log s ++ [(ERROR, if os_path_exists (fs s) directory
                            then MsgNotADirectory directory
                            else MsgNoDirectory directory)])
         (calls s)).
Proof.
  intros H. unfold main, bind, path_exists, path_isdir.
  destruct (os_path_exists (fs s) directory); simpl.
  - destruct H as [H|H]; [discriminate|]. rewrite H. reflexivity.
  - reflexivity.
Qed.

(** C9: when the root is a directory and the traversal returns the empty
    list, [main] logs that nothing was found and returns.  Neither mode is
    entered: no record of preview or execute mode is emitted, in
    particular no count of candidates, and no rename is issued. *)
Theorem main_nothing_found directory preview (s : state (W := W)) :
  os_path_exists (fs s) directory = true ->
  os_path_isdir (fs s) directory = true ->
  fst (traverse_directory directory s) = Ok [] ->
  exists walk_log,
    main directory preview s =
    (Ok tt,
     State (fs s)
           (log s ++ [(INFO, MsgStart directory);
                      (INFO, MsgStartTime (datetime_now (fs s)))]
                  ++ walk_log ++ [(INFO, MsgNothingFound)])
           (calls s ++ [SysWalk directory])) /\
    (walk_log = [] \/ exists e, walk_log = [(ERROR, MsgWalkError e)]) /\
    forallb (fun r => negb (is_mode_record r))
            ([(INFO, MsgStart directory);
              (INFO, MsgStartTime (datetime_now (fs s)))]
               ++ walk_log ++ [(INFO, MsgNothingFound)]) = true.
Proof.
  intros He Hd Ht. rewrite traverse_directory_run in Ht.
  unfold main, bind, path_exists, path_isdir, now, logger_info, emit.
  cbv beta iota. rewrite He. cbn [negb]. cbv beta iota. cbn [fs].
  rewrite Hd. cbn [negb]. cbv beta iota. cbn [fs log calls].
  rewrite traverse_directory_run. cbn [fs log calls].
  destruct (os_walk (fs s) directory) as [items [e|]]; cbn [fst] in Ht.
  - exists [(ERROR, MsgWalkError e)]. split; [|split; eauto].
    cbn [fs log calls]. now rewrite <- !app_assoc.
  - injection Ht as Ht. rewrite Ht. exists []. split; [|split; auto].
    unfold issue. cbn [fs log calls app]. now rewrite <- !app_assoc.
Qed.

End Main.

(** ** Runs on the reference filesystem *)

Section Runs.

Lemma execute_rename_failure_is_local_witness :
  let s := start (sample_world sample_entries) in
  let before := [lit "/tmp/r/a/report.adoc.docx"] in
  let old := lit "/tmp/r/a/missing.adoc.docx" in
  let after := [lit "/tmp/r/c/summary.adoc.docx"] in
  let s1 := snd (execute_loop before 0 0 s) in
  let e := lit "[Errno 2] No such file or directory: '/tmp/r/a/missing.adoc.docx' -> '/tmp/r/a/missing.docx'" in
  (execute_loop before 0 0 s = (Ok (1, 0), s1) /\
   os_rename (fs s1) old (generate_new_filename old) = inr e) /\
  execute_loop (before ++ old :: after) 0 0 s =
    execute_loop after 1 (0 + 1)
      (State (fs s1) (log s1 ++ [(ERROR, MsgRenameFailed old e)])
             (calls s1 ++ [SysRename old (generate_new_filename old)])) /\
  exists s',
    execute_rename (before ++ old :: after) s = (Ok tt, s') /\
    calls s' = calls s ++ rename_calls (before ++ old :: after).
Proof.
  split; [split; reflexivity|].
  apply (execute_rename_failure_is_local
           [lit "/tmp/r/a/report.adoc.docx"]
           (lit "/tmp/r/a/missing.adoc.docx")
           [lit "/tmp/r/c/summary.adoc.docx"]
           (lit "[Errno 2] No such file or directory: '/tmp/r/a/missing.adoc.docx' -> '/tmp/r/a/missing.docx'")
           1 0
           (start (sample_world sample_entries))
           (snd (execute_loop [lit "/tmp/r/a/report.adoc.docx"] 0 0
                   (start (sample_world sample_entries)))));
    reflexivity.
Defined.

(** The run of the previous witness, through to its end: the failure in
    the middle is counted and the last candidate is still renamed. *)
Example execute_rename_continues_after_failure :
  let s := start (sample_world sample_entries) in
  let files := [lit "/tmp/r/a/report.adoc.docx";
                lit "/tmp/r/a/missing.adoc.docx";
                lit "/tmp/r/c/summary.adoc.docx"] in
  let s' := snd (execute_rename files s) in
  fst (execute_rename files s) = Ok tt /\
  map (fun r => render (snd r)) (log s') =
    [lit "=== 执行模式 ===";
     lit "成功修改: /tmp/r/a/report.adoc.docx -> /tmp/r/a/report.docx";
     lit "修改失败 /tmp/r/a/missing.adoc.docx: [Errno 2] No such file or directory: '/tmp/r/a/missing.adoc.docx' -> '/tmp/r/a/missing.docx'";
     lit "成功修改: /tmp/r/c/summary.adoc.docx -> /tmp/r/c/summary.docx";
     lit "=== 执行完成 ===";
     lit "成功修改: 2 个文件";
     lit "修改失败: 1 个文件"] /\
  root (fs s') =
    [Dir (lit "tmp") [Dir (lit "r")
       [Dir (lit "a") [File (lit "report.docx")];
        Dir (lit "b") [File (lit "notes.txt")];
        Dir (lit "c") [File (lit "summary.docx")]]]].
Proof. repeat split; vm_compute; reflexivity. Qed.

Lemma main_rejects_bad_root_witness :
  let s := start (sample_world sample_entries) in
  (os_path_exists (fs s) (lit "/tmp/x") = false \/
   os_path_isdir (fs s) (lit "/tmp/x") = false) /\
  main (lit "/tmp/x") false s =
  (Ok tt, State (fs s) [(ERROR, MsgNoDirectory (lit "/tmp/x"))] []).
Proof.
  split; [left; reflexivity|].
  exact (main_rejects_bad_root (lit "/tmp/x") false
           (start (sample_world sample_entries)) (or_introl eq_refl)).
Defined.

Example main_rejects_a_file :
  let s := start (sample_world sample_entries) in
  main (lit "/tmp/r/b/notes.txt") false s =
  (Ok tt, State (fs s) [(ERROR, MsgNotADirectory (lit "/tmp/r/b/notes.txt"))] []).
Proof. reflexivity. Qed.

Lemma main_nothing_found_witness :
  let s := start (sample_world [Dir (lit "b") [File (lit "notes.txt")]]) in
  (os_path_exists (fs s) (lit "/tmp/r") = true /\
   os_path_isdir (fs s) (lit "/tmp/r") = true /\
   fst (traverse_directory (lit "/tmp/r") s) = Ok []) /\
  exists walk_log,
    main (lit "/tmp/r") true s =
    (Ok tt,
     State (fs s)
           (log s ++ [(INFO, MsgStart (lit "/tmp/r"));
                      (INFO, MsgStartTime (datetime_now (fs s)))]
                  ++ walk_log ++ [(INFO, MsgNothingFound)])
           (calls s ++ [SysWalk (lit "/tmp/r")])) /\
    (walk_log = [] \/ exists e, walk_log = [(ERROR, MsgWalkError e)]) /\
    forallb (fun r => negb (is_mode_record r))
            ([(INFO, MsgStart (lit "/tmp/r"));
              (INFO, MsgStartTime (datetime_now (fs s)))]
               ++ walk_log ++ [(INFO, MsgNothingFound)]) = true.
Proof.
  split; [repeat split; reflexivity|].
  apply (main_nothing_found (lit "/tmp/r") true
           (start (sample_world [Dir (lit "b") [File (lit "notes.txt")]])));
    reflexivity.
Defined.

Lemma permutation_of_three {A} (a b c : A) l :
  Permutation [a; b; c] l ->
  l = [a; b; c] \/ l = [a; c; b] \/ l = [b; a; c] \/
  l = [b; c; a] \/ l = [c; a; b] \/ l = [c; b; a].
Proof.
  intros H.
  destruct (Permutation_vs_cons_inv (Permutation_sym H)) as [l1 [l2 ->]].
  apply Permutation_cons_app_inv in H.
  apply Permutation_length_2_inv in H.
  destruct l1 as [|x [|y [|z l1]]]; simpl in *.
  - destruct H as [->| ->]; auto.
  - destruct H as [H|H]; injection H as -> ->; auto 6.
  - destruct H as [H|H]; injection H as -> -> ->; auto 7.
  - destruct H as [H|H]; discriminate H.
Qed.

(** C8: for a root [/tmp/r] holding exactly [a/report.adoc.docx],
    [b/notes.txt] and [c/summary.adoc.docx], in whatever order the three
    directories are listed, preview mode reports a count of 2 and exactly
    the two lines [a/report.adoc.docx -> a/report.docx] and
    [c/summary.adoc.docx -> c/summary.docx]; [b/notes.txt] is not
    reported, the tree is unchanged and no rename is issued. *)
Theorem preview_of_sample_tree entries :
  Permutation sample_entries entries ->
  exists lines,
    main (lit "/tmp/r") true (start (sample_world entries)) =
    (Ok tt,
     State (sample_world entries)
           ([(INFO, MsgStart (lit "/tmp/r"));
             (INFO, MsgStartTime (lit "2024-01-01 00:00:00"));
             (INFO, MsgPreviewBegin);
             (INFO, MsgPreviewCount 2)]
              ++ lines ++
            [(INFO, MsgPreviewEnd);
             (INFO, MsgEndTime (lit "2024-01-01 00:00:00"))])
           [SysWalk (lit "/tmp/r")]) /\
    Permutation lines
      [(INFO, MsgWillRename (lit "/tmp/r/a/report.adoc.docx")
                            (lit "/tmp/r/a/report.docx"));
       (INFO, MsgWillRename (lit "/tmp/r/c/summary.adoc.docx")
                            (lit "/tmp/r/c/summary.docx"))].
Proof.
  intros H. apply permutation_of_three in H.
  repeat (destruct H as [->|H]); try subst entries;
    first
      [ exists [(INFO, MsgWillRename (lit "/tmp/r/a/report.adoc.docx")
                                     (lit "/tmp/r/a/report.docx"));
                (INFO, MsgWillRename (lit "/tmp/r/c/summary.adoc.docx")
                                     (lit "/tmp/r/c/summary.docx"))];
        split; [reflexivity | apply Permutation_refl]
      | exists [(INFO, MsgWillRename (lit "/tmp/r/c/summary.adoc.docx")
                                     (lit "/tmp/r/c/summary.docx"));
                (INFO, MsgWillRename (lit "/tmp/r/a/report.adoc.docx")
                                     (lit "/tmp/r/a/report.docx"))];
        split; [reflexivity | apply perm_swap] ].
Qed.

Lemma preview_of_sample_tree_witness :
  Permutation sample_entries sample_entries /\
  exists lines,
    main (lit "/tmp/r") true (start (sample_world sample_entries)) =
    (Ok tt,
     State (sample_world sample_entries)
           ([(INFO, MsgStart (lit "/tmp/r"));
             (INFO, MsgStartTime (lit "2024-01-01 00:00:00"));
             (INFO, MsgPreviewBegin);
             (INFO, MsgPreviewCount 2)]
              ++ lines ++
            [(INFO, MsgPreviewEnd);
             (INFO, MsgEndTime (lit "2024-01-01 00:00:00"))])
           [SysWalk (lit "/tmp/r")]) /\
    Permutation lines
      [(INFO, MsgWillRename (lit "/tmp/r/a/report.adoc.docx")
                            (lit "/tmp/r/a/report.docx"));
       (INFO, MsgWillRename (lit "/tmp/r/c/summary.adoc.docx")
                            (lit "/tmp/r/c/summary.docx"))].
Proof.
  split; [apply Permutation_refl|].
  apply (preview_of_sample_tree sample_entries). apply Permutation_refl.
Defined.

(** The lines of that run as the logger prints them. *)
Example preview_of_sample_tree_text :
  map (fun r => render (snd r))
      (log (snd (main (lit "/tmp/r") true (start (sample_world sample_entries))))) =
  [lit "开始处理目录: /tmp/r";
   lit "开始时间: 2024-01-01 00:00:00";
   lit "=== 预览模式 ===";
   lit "找到 2 个需要修改的文件:";
   lit "将修改: /tmp/r/a/report.adoc.docx -> /tmp/r/a/report.docx";
   lit "将修改: /tmp/r/c/summary.adoc.docx -> /tmp/r/c/summary.docx";
   lit "=== 预览完成 ===";
   lit "结束时间: 2024-01-01 00:00:00"].
Proof. vm_compute. reflexivity. Qed.

End Runs.

(** ** Checks of the embedding against Python *)

Section Checks.

(** ["-a-b-".replace("", "-")], ["aaa".replace("aa", "b")],
    ["a.adoc.docx.adoc.docx".replace(".adoc.docx", ".docx")]. *)
Example replace_like_python :
  replace [] (lit "-") (lit "ab") = lit "-a-b-" /\
  replace (lit "aa") (lit "b") (lit "aaa") = lit "ba" /\
  replace old_suffix new_suffix (lit "a.adoc.docx.adoc.docx") = lit "a.docx.docx" /\
  replace old_suffix new_suffix (lit "notes.txt") = lit "notes.txt".
Proof. repeat split; reflexivity. Qed.

Example posixpath_like_python :
  dirname (lit "/tmp/r/a.docx") = lit "/tmp/r" /\
  dirname (lit "/a.docx") = lit "/" /\
  dirname (lit "//a.docx") = lit "//" /\
  dirname (lit "r//a.docx") = lit "r" /\
  dirname (lit "a.docx") = [] /\
  basename (lit "/tmp/r/a.docx") = lit "a.docx" /\
  basename (lit "/tmp/r/") = [] /\
  join (lit "/tmp/r") (lit "a.docx") = lit "/tmp/r/a.docx" /\
  join (lit "/tmp/r/") (lit "a.docx") = lit "/tmp/r/a.docx" /\
  join [] (lit "a.docx") = lit "a.docx" /\
  join (lit "/tmp/r") (lit "/a.docx") = lit "/a.docx".
Proof. repeat split; reflexivity. Qed.

Example generate_new_filename_like_python :
  generate_new_filename (lit "/tmp/r/a/report.adoc.docx") = lit "/tmp/r/a/report.docx" /\
  generate_new_filename (lit "summary.adoc.docx") = lit "summary.docx" /\
  generate_new_filename (lit "r//a.adoc.docx") = lit "r/a.docx" /\
  generate_new_filename (lit "/x.adoc.adoc.docx") = lit "/x.adoc.docx" /\
  generate_new_filename (lit "b/notes.txt") = lit "b/notes.txt".
Proof. repeat split; reflexivity. Qed.

Example decimal_like_python :
  decimal 0 = lit "0" /\ decimal 10 = lit "10" /\ decimal 2 = lit "2".
Proof. repeat split; reflexivity. Qed.

End Checks.

(** * Further properties of the script *)

(** ** The steps of [main] *)

Section Frames.

Context {W : Type} {os : OS W}.

Let state := state (W := W).

(** [main], one step at a time. *)
Lemma main_run directory preview (s : state) :
  main directory preview s =
  if negb (os_path_exists (fs s) directory)
  then (Ok tt, State (fs s) (log s ++ [(ERROR, MsgNoDirectory directory)]) (calls s))
  else if negb (os_path_isdir (fs s) directory)
  then (Ok tt, State (fs s) (log s ++ [(ERROR, MsgNotADirectory directory)]) (calls s))
  else
    match traverse_directory directory
            (State (fs s)
                   ((log s ++ [(INFO, MsgStart directory)])
                      ++ [(INFO, MsgStartTime (datetime_now (fs s)))])
                   (calls s)) with
    | (Ok [], s2) =>
        (Ok tt, State (fs s2) (log s2 ++ [(INFO, MsgNothingFound)]) (calls s2))
    | (Ok (f :: files), s2) =>
        match (if preview then preview_rename (f :: files)
               else execute_rename (f :: files)) s2 with
        | (Ok _, s3) =>
            (Ok tt, State (fs s3)
                          (log s3 ++ [(INFO, MsgEndTime (datetime_now (fs s3)))])
                          (calls s3))
        | (Raise e, s3) => (Raise e, s3)
        end
    | (Raise e, s2) => (Raise e, s2)
    end.
Proof.
  unfold main, bind, path_exists, path_isdir, now, logger_info, logger_error, emit.
  cbv beta iota. cbn [fs log calls].
  destruct (os_path_exists (fs s) directory); cbn [negb]; [|reflexivity].
  cbv beta iota. cbn [fs log calls].
  destruct (os_path_isdir (fs s) directory); cbn [negb]; [|reflexivity].
  cbv beta iota. cbn [fs log calls].
  destruct (traverse_directory directory _) as [[[|f files]|e] s2]; reflexivity.
Qed.

End Frames.

(** ** The whole run, case by case *)

Section WholeRun.

Context {W : Type} {os : OS W}.

Let state := state (W := W).

Lemma traverse_directory_found directory (s : state) :
  traverse_directory directory s =
  (Ok (found (fs s) directory),
   State (fs s) (log s ++ walk_log (fs s) directory)
         (calls s ++ [SysWalk directory])).
Proof.
  rewrite traverse_directory_run. unfold found, walk_log, issue.
  destruct (os_walk (fs s) directory) as [items [e|]]; [reflexivity|].
  now rewrite app_nil_r.
Qed.

Lemma valid_root_false w directory :
  valid_root w directory = false ->
  os_path_exists w directory = false \/
  (os_path_exists w directory = true /\ os_path_isdir w directory = false).
Proof.
  unfold valid_root. destruct (os_path_exists w directory); simpl; auto.
Qed.

Lemma main_bad_root directory preview (s : state) :
  valid_root (fs s) directory = false ->
  exists m, main directory preview s =
            (Ok tt, State (fs s) (log s ++ [(ERROR, m)]) (calls s)).
Proof.
  intros H. rewrite main_run.
  destruct (valid_root_false _ _ H) as [E|[E D]]; rewrite E; cbn [negb]; eauto.
  rewrite D. cbn [negb]. eauto.
Qed.

Lemma main_good_root directory preview (s : state) :
  valid_root (fs s) directory = true ->
  main directory preview s =
  match found (fs s) directory with
  | [] =>
      (Ok tt,
       State (fs s)
             (log s ++ [(INFO, MsgStart directory);
                        (INFO, MsgStartTime (datetime_now (fs s)))]
                    ++ walk_log (fs s) directory ++ [(INFO, MsgNothingFound)])
             (calls s ++ [SysWalk directory]))
  | f :: files =>
      match (if preview then preview_rename (f :: files)
             else execute_rename (f :: files))
              (State (fs s)
                     (log s ++ [(INFO, MsgStart directory);
                                (INFO, MsgStartTime (datetime_now (fs s)))]
                            ++ walk_log (fs s) directory)
                     (calls s ++ [SysWalk directory])) with
      | (Ok _, s3) =>
          (Ok tt, State (fs s3)
                        (log s3 ++ [(INFO, MsgEndTime (datetime_now (fs s3)))])
                        (calls s3))
      | (Raise e, s3) => (Raise e, s3)
      end
  end.
Proof.
  intros H. unfold valid_root in H. apply andb_true_iff in H as [E D].
  rewrite main_run, E, D. cbn [negb].
  rewrite traverse_directory_found. cbn [fs log calls].
  destruct (found (fs s) directory) as [|f files].
  - cbn [fs log calls]. rewrite <- !app_assoc. reflexivity.
  - rewrite <- !app_assoc. reflexivity.
Qed.

Lemma execute_loop_rename_all files : forall sc ec (s : state),
  execute_loop files sc ec s =
  (Ok (sc + length (filter is_renamed (snd (rename_all (fs s) files))),
       ec + length (filter is_rename_failed (snd (rename_all (fs s) files)))),
   State (fst (rename_all (fs s) files))
         (log s ++ snd (rename_all (fs s) files))
         (calls s ++ rename_calls files)).
Proof.
  induction files as [|old files IH]; intros sc ec s.
  - simpl. unfold ret. rewrite !Nat.add_0_r, !app_nil_r. now destruct s.
  - cbn [rename_all rename_calls map].
    destruct (os_rename (fs s) old (generate_new_filename old)) as [w'|e] eqn:E.
    + erewrite execute_loop_success by exact E. rewrite IH. cbn [fs log calls].
      destruct (rename_all w' files) as [w'' lines]. cbn [fst snd filter is_renamed is_rename_failed length].
      rewrite <- !app_assoc. cbn [app]. f_equal. f_equal. f_equal; lia.
    + erewrite execute_loop_failure by exact E. rewrite IH. cbn [fs log calls].
      destruct (rename_all (fs s) files) as [w'' lines]. cbn [fst snd filter is_renamed is_rename_failed length].
      rewrite <- !app_assoc. cbn [app]. f_equal. f_equal. f_equal; lia.
Qed.

Lemma rename_all_lines w files :
  length (snd (rename_all w files)) = length files /\
  length (filter is_renamed (snd (rename_all w files))) +
  length (filter is_rename_failed (snd (rename_all w files))) = length files.
Proof.
  revert w. induction files as [|old files IH]; intros w; [split; reflexivity|].
  cbn [rename_all].
  destruct (os_rename w old (generate_new_filename old)) as [w'|e].
  - destruct (IH w') as [L C]. destruct (rename_all w' files) as [w'' lines].
    simpl in *. split; lia.
  - destruct (IH w) as [L C]. destruct (rename_all w files) as [w'' lines].
    simpl in *. split; lia.
Qed.

End WholeRun.

Section WholeRunFacts.

Context {W : Type} {os : OS W}.

Let state := state (W := W).

Lemma execute_rename_outcome files (s : state) :
  execute_rename files s =
  (Ok tt,
   State (fst (rename_all (fs s) files))
         (log s ++ [(INFO, MsgExecuteBegin)]
                ++ snd (rename_all (fs s) files)
                ++ [(INFO, MsgExecuteEnd);
                    (INFO, MsgSuccessCount
                             (length (filter is_renamed (snd (rename_all (fs s) files)))));
                    (INFO, MsgErrorCount
                             (length (filter is_rename_failed
                                             (snd (rename_all (fs s) files)))))])
         (calls s ++ rename_calls files)).
Proof.
  rewrite execute_rename_run, execute_loop_rename_all. cbn [fs log calls plus].
  now rewrite <- !app_assoc.
Qed.

Lemma announced_app l1 l2 : announced (l1 ++ l2) = announced l1 ++ announced l2.
Proof. apply flat_map_app. Qed.

Lemma requested_app c1 c2 : requested (c1 ++ c2) = requested c1 ++ requested c2.
Proof. apply flat_map_app. Qed.

Lemma announced_preview_lines files :
  announced (preview_lines files) =
  map (fun old => (old, generate_new_filename old)) files.
Proof. induction files as [|f files IH]; simpl; congruence. Qed.

Lemma requested_rename_calls files :
  requested (rename_calls files) =
  map (fun old => (old, generate_new_filename old)) files.
Proof. induction files as [|f files IH]; simpl; congruence. Qed.

Lemma announced_walk_log (w : W) directory : announced (walk_log w directory) = [].
Proof. unfold walk_log. now destruct (os_walk w directory) as [items [e|]]. Qed.

(** X1: whatever the filesystem answers, [main] returns normally: the
    exceptions of the walk and of every rename are caught on the way, so
    none reaches the caller. *)
Theorem main_never_raises directory preview (s : state) :
  fst (main directory preview s) = Ok tt.
Proof.
  destruct (valid_root (fs s) directory) eqn:V.
  - rewrite (main_good_root _ _ _ V).
    destruct (found (fs s) directory) as [|f files]; [reflexivity|].
    destruct preview.
    + now rewrite preview_rename_run.
    + now rewrite execute_rename_outcome.
  - destruct (main_bad_root directory preview s V) as [m ->]. reflexivity.
Qed.

(** X2: the filesystem calls of a run.  A root that fails the two tests
    gets none.  Otherwise there is exactly one walk, followed in execute
    mode by one rename per candidate the traversal returned, in that
    order, and in preview mode by nothing. *)
Theorem main_filesystem_calls directory preview (s : state) :
  calls (snd (main directory preview s)) =
  calls s ++
  (if valid_root (fs s) directory
   then SysWalk directory
          :: (if preview then [] else rename_calls (found (fs s) directory))
   else []).
Proof.
  destruct (valid_root (fs s) directory) eqn:V.
  - rewrite (main_good_root _ _ _ V).
    destruct (found (fs s) directory) as [|f files].
    + now destruct preview.
    + destruct preview.
      * now rewrite preview_rename_run.
      * rewrite execute_rename_outcome. cbn [snd calls].
        now rewrite <- app_assoc.
  - destruct (main_bad_root directory preview s V) as [m ->].
    cbn [snd calls]. now rewrite app_nil_r.
Qed.

(** X3: a run with [--preview] ends on the filesystem it started on,
    whatever the root and whatever the walk finds or raises. *)
Theorem main_preview_keeps_filesystem directory (s : state) :
  fs (snd (main directory true s)) = fs s.
Proof.
  destruct (valid_root (fs s) directory) eqn:V.
  - rewrite (main_good_root _ _ _ V).
    destruct (found (fs s) directory) as [|f files]; [reflexivity|].
    now rewrite preview_rename_run.
  - destruct (main_bad_root directory true s V) as [m ->]. reflexivity.
Qed.

(** X4: preview mode announces exactly what execute mode asks for: from
    the same filesystem, the pairs [old -> new] that a preview run adds to
    the log are, in the same order, the pairs [(src, dst)] of the renames
    that an execute run issues. *)
Theorem preview_announces_the_renames directory (s : state) :
  exists pairs,
    announced (log (snd (main directory true s))) = announced (log s) ++ pairs /\
    requested (calls (snd (main directory false s))) = requested (calls s) ++ pairs /\
    pairs = map (fun old => (old, generate_new_filename old))
                (if valid_root (fs s) directory then found (fs s) directory else []).
Proof.
  eexists. split; [|split; [|reflexivity]].
  - destruct (valid_root (fs s) directory) eqn:V.
    + rewrite (main_good_root _ _ _ V).
      destruct (found (fs s) directory) as [|f files].
      * cbn [snd log]. rewrite !announced_app, announced_walk_log. simpl.
        now rewrite app_nil_r.
      * rewrite preview_rename_run. cbn [snd log].
        rewrite !announced_app, announced_walk_log, announced_preview_lines.
        simpl. now rewrite !app_nil_r.
    + destruct (main_bad_root directory true s V) as [m ->].
      cbn [snd log]. rewrite announced_app. reflexivity.
  - destruct (valid_root (fs s) directory) eqn:V.
    + rewrite (main_good_root _ _ _ V).
      destruct (found (fs s) directory) as [|f files].
      * cbn [snd calls]. rewrite requested_app. reflexivity.
      * rewrite execute_rename_outcome. cbn [snd calls].
        rewrite !requested_app, requested_rename_calls.
        cbn [requested flat_map app]. now rewrite app_nil_r.
    + destruct (main_bad_root directory false s V) as [m ->].
      cbn [snd calls map]. now rewrite app_nil_r.
Qed.

(** X5: in execute mode over a valid root with at least one candidate,
    the run ends with the four records "done", successes, failures and
    end time; the two counts add up to the number of candidates the
    traversal returned, and the end time is read after the renames. *)
Theorem main_execute_summary directory (s : state) :
  valid_root (fs s) directory = true ->
  found (fs s) directory <> [] ->
  exists success_count error_count s' earlier,
    main directory false s = (Ok tt, s') /\
    log s' = earlier ++ [(INFO, MsgExecuteEnd);
                         (INFO, MsgSuccessCount success_count);
                         (INFO, MsgErrorCount error_count);
                         (INFO, MsgEndTime (datetime_now (fs s')))] /\
    success_count + error_count = length (found (fs s) directory).
Proof.
  intros V N. rewrite (main_good_root _ _ _ V).
  destruct (found (fs s) directory) as [|f files] eqn:F; [congruence|].
  rewrite execute_rename_outcome. cbn [fs log calls].
  destruct (rename_all_lines (fs s) (f :: files)) as [_ C].
  destruct (rename_all (fs s) (f :: files)) as [w' lines]. cbn [fst snd] in *.
  exists (length (filter is_renamed lines)),
         (length (filter is_rename_failed lines)).
  eexists.
  exists ((log s ++ [(INFO, MsgStart directory);
                     (INFO, MsgStartTime (datetime_now (fs s)))]
                 ++ walk_log (fs s) directory)
            ++ [(INFO, MsgExecuteBegin)] ++ lines).
  split; [reflexivity|]. split; [|exact C].
  cbn [log fs]. rewrite <- !app_assoc. reflexivity.
Qed.

(** X6: [execute_rename] never moves a file to another directory: every
    rename it issues for a candidate [src] has [generate_new_filename src]
    as target, which has the directory part of [src]. *)
Theorem execute_rename_stays_in_directory files (s : state) src dst :
  In (SysRename src dst) (calls (snd (execute_rename files s))) ->
  In (SysRename src dst) (calls s) \/
  (In src files /\ dst = generate_new_filename src /\ dirname dst = dirname src).
Proof.
  rewrite execute_rename_outcome. cbn [snd calls]. intros H.
  apply in_app_or in H as [H|H]; [now left|right].
  unfold rename_calls in H. apply in_map_iff in H as [old [E Hin]].
  injection E as <- <-. repeat split; auto.
  apply generate_new_filename_dirname.
Qed.

(** X7: if every rename raises, [execute_rename] ends on the filesystem it
    started on, having tried every candidate, and reports no success and
    as many failures as there are candidates. *)
Theorem execute_rename_all_fail files (s : state) :
  (forall old, In old files ->
     exists e, os_rename (fs s) old (generate_new_filename old) = inr e) ->
  exists lines,
    execute_rename files s =
    (Ok tt,
     State (fs s)
           (log s ++ [(INFO, MsgExecuteBegin)] ++ lines
                  ++ [(INFO, MsgExecuteEnd);
                      (INFO, MsgSuccessCount 0);
                      (INFO, MsgErrorCount (length files))])
           (calls s ++ rename_calls files)) /\
    length lines = length files /\
    forallb is_rename_failed lines = true.
Proof.
  intros H.
  assert (R : fst (rename_all (fs s) files) = fs s /\
              forallb is_rename_failed (snd (rename_all (fs s) files)) = true /\
              length (filter is_renamed (snd (rename_all (fs s) files))) = 0 /\
              length (filter is_rename_failed (snd (rename_all (fs s) files)))
              = length files).
  { generalize (fs s) H. clear H. intros w H.
    induction files as [|old files IH]; [repeat split|].
    cbn [rename_all]. destruct (H old (or_introl eq_refl)) as [e ->].
    destruct IH as (I1 & I2 & I3 & I4); [intros o Ho; apply H; now right|].
    destruct (rename_all w files) as [w'' lines]. simpl in *.
    repeat split; auto. }
  destruct R as (R1 & R2 & R3 & R4).
  exists (snd (rename_all (fs s) files)).
  rewrite execute_rename_outcome, R1, R3, R4.
  split; [reflexivity|]. split; [apply rename_all_lines|exact R2].
Qed.

(** X8: a run neither reads nor rewrites what was logged before: started
    after any log and any earlier calls, it gives the result, the final
    filesystem, the new records and the new calls of the run started from
    an empty log, appended to what was there. *)
Theorem main_appends_only directory preview (s : state) :
  main directory preview s = reframe s (main directory preview (fresh s)).
Proof.
  unfold reframe.
  destruct (valid_root (fs s) directory) eqn:V.
  - rewrite (main_good_root directory preview s V).
    rewrite (main_good_root directory preview (fresh s) V).
    unfold fresh. cbn [fs log calls app].
    destruct (found (fs s) directory) as [|f files]; [reflexivity|].
    destruct preview.
    + rewrite !preview_rename_run. cbn [fst snd fs log calls app].
      now rewrite <- !app_assoc.
    + rewrite !execute_rename_outcome. cbn [fst snd fs log calls app].
      now rewrite <- !app_assoc.
  - assert (V' : valid_root (fs (fresh s)) directory = false) by exact V.
    rewrite main_run. rewrite (main_run directory preview (fresh s)).
    unfold fresh. cbn [fs log calls app].
    destruct (valid_root_false _ _ V) as [E|[E D]]; rewrite E; cbn [negb].
    + cbn [fst snd fs log calls]. now rewrite app_nil_r.
    + rewrite D. cbn [negb fst snd fs log calls]. now rewrite app_nil_r.
Qed.

End WholeRunFacts.

(** ** More on the name transform *)

Section TransformFacts.

Lemma replace_length_le old new s :
  old <> [] -> length new <= length old ->
  length (replace old new s) <= length s.
Proof.
  intros Hold Hlen. pattern s, (replace old new s).
  apply replace_scan_ind; [exact Hold| | |].
  - reflexivity.
  - intros rest IH. rewrite !length_app. lia.
  - intros c t _ IH. simpl. lia.
Qed.

Lemma basename_join top name :
  sep_free name -> basename (join top name) = name.
Proof.
  intros Hn. unfold join. rewrite (startswith_no_sep _ Hn).
  destruct top as [|c top'] eqn:T.
  - cbn [nonempty negb orb]. now apply (split_head_name [] name); [left|].
  - rewrite <- T. assert (N : nonempty top = true) by now rewrite T.
    rewrite N. cbn [negb orb].
    destruct (endswith top [sep]) eqn:E.
    + apply endswith_spec in E as [pre E].
      apply (split_head_name top name); [right; eauto|exact Hn].
    + change (top ++ sep :: name) with (top ++ [sep] ++ name).
      rewrite app_assoc.
      apply (split_head_name (top ++ [sep]) name); [right; eauto|exact Hn].
Qed.

(** A candidate's new filename is at least five characters shorter. *)
Lemma selected_shrinks p :
  selected p = true ->
  length (basename (generate_new_filename p)) + 5 <= length (basename p).
Proof.
  unfold selected. intros H. apply endswith_spec in H as [x E].
  rewrite generate_new_filename_basename, E, replace_old_suffix, !length_app.
  pose proof (replace_length_le old_suffix new_suffix x old_suffix_nonempty) as L.
  simpl in *. lia.
Qed.

(** X9: every path the traversal returns from a walk that lists names
    without separator is a real renaming job: its filename ends in
    [.adoc.docx], the new path differs from it, and the new filename ends
    in [.docx] and is at least five characters shorter. *)
Theorem candidates_get_new_names items p :
  Forall (fun item => Forall sep_free (walk_files item)) items ->
  In p (candidates items) ->
  selected p = true /\
  generate_new_filename p <> p /\
  endswith (basename (generate_new_filename p)) new_suffix = true /\
  length (basename (generate_new_filename p)) + 5 <= length (basename p).
Proof.
  intros Hfree Hin.
  assert (S : selected p = true).
  { apply in_candidates in Hin as [name [[item [Hitem [Hname ->]]] E]].
    rewrite Forall_forall in Hfree. specialize (Hfree item Hitem).
    rewrite Forall_forall in Hfree. unfold selected.
    rewrite basename_join; [exact E|]. now apply Hfree. }
  pose proof (selected_shrinks p S) as L.
  repeat split; auto.
  - intros E. rewrite E in L. lia.
  - unfold selected in S. apply endswith_spec in S as [x E].
    rewrite generate_new_filename_basename, E, replace_old_suffix.
    apply endswith_app.
Qed.

(** X10: repeating the transform ends: for every path there is a number
    [k] of applications, at most a fifth of the length of its filename,
    after which the filename no longer ends in [.adoc.docx]. *)
Theorem transform_reaches_unselected p :
  exists k, 5 * k <= length (basename p) /\
            selected (Nat.iter k generate_new_filename p) = false.
Proof.
  remember (length (basename p)) as n eqn:Hn. revert p Hn.
  induction n as [n IH] using lt_wf_ind. intros p Hn.
  destruct (selected p) eqn:Sel.
  - pose proof (selected_shrinks p Sel) as L.
    destruct (IH (length (basename (generate_new_filename p))))
      with (p := generate_new_filename p) as [k [Hk Hs]]; [lia|reflexivity|].
    exists (S k). rewrite Nat.iter_succ_r. split; [lia|exact Hs].
  - exists 0. split; [lia|exact Sel].
Qed.

(** X11: a path whose filename holds no [.adoc.docx] keeps its directory
    and its filename. *)
Theorem generate_new_filename_keeps_other_names p :
  ~ occurs old_suffix (basename p) ->
  dirname (generate_new_filename p) = dirname p /\
  basename (generate_new_filename p) = basename p.
Proof.
  intros H. split; [apply generate_new_filename_dirname|].
  rewrite generate_new_filename_basename.
  now apply replace_no_occurrence; [apply old_suffix_nonempty|].
Qed.

(** X12: once the new filename holds no [.adoc.docx], applying the
    transform again changes nothing. *)
Theorem generate_new_filename_settles p :
  ~ occurs old_suffix (basename (generate_new_filename p)) ->
  generate_new_filename (generate_new_filename p) = generate_new_filename p.
Proof.
  intros H.
  assert (E : generate_new_filename (generate_new_filename p) =
              join (dirname (generate_new_filename p))
                   (replace old_suffix new_suffix
                            (basename (generate_new_filename p))))
    by reflexivity.
  rewrite E, generate_new_filename_dirname.
  rewrite (replace_no_occurrence _ _ _ old_suffix_nonempty H).
  rewrite generate_new_filename_basename. reflexivity.
Qed.

End TransformFacts.

(** ** Counting the candidates of a tree *)

Section CountFacts.

Lemma candidates_app a b : candidates (a ++ b) = candidates a ++ candidates b.
Proof. apply flat_map_app. Qed.

Lemma count_walk_entries top entries :
  Forall (fun n => forall top,
            length (candidates (walk_node top n)) =
            match n with File _ => 0 | Dir _ children => count_matching children end)
         entries ->
  length (candidates (walk top entries)) = count_matching entries.
Proof.
  intros H. unfold walk, count_matching.
  change (candidates (?i :: ?l)) with (candidates ([i] ++ l)).
  rewrite candidates_app, length_app.
  unfold candidates at 1. cbn [flat_map walk_root walk_files].
  rewrite app_nil_r, length_map.
  induction H as [|n entries Hn _ IH]; [reflexivity|].
  cbn [flat_map map list_sum]. rewrite candidates_app, length_app, Hn.
  destruct n as [name|d children].
  - cbn [file_names flat_map app filter count_node].
    fold (file_names entries).
    destruct (endswith name old_suffix); simpl in *; lia.
  - cbn [file_names flat_map app count_node]. fold (file_names entries).
    fold (count_matching children).
    change (list_sum (?a :: ?l)) with (a + list_sum l). lia.
Qed.

Lemma count_walk_node n : forall top,
  length (candidates (walk_node top n)) =
  match n with File _ => 0 | Dir _ children => count_matching children end.
Proof.
  induction n as [name|d children IH] using node_children_ind; intros top.
  - reflexivity.
  - change (walk_node top (Dir d children)) with (walk (join top d) children).
    now apply count_walk_entries.
Qed.

End CountFacts.

Section CountTheorem.

Context {W : Type} {os : OS W}.

(** X13: when the walk of [directory] lists the tree [entries] and
    completes, [traverse_directory] returns as many paths as the tree has
    files whose name ends in [.adoc.docx]: with the membership of the
    result, no such file is dropped and none is returned twice. *)
Theorem traverse_directory_counts_matching_files
    directory entries (s : state (W := W)) :
  os_walk (fs s) directory = (walk directory entries, None) ->
  exists files,
    fst (traverse_directory directory s) = Ok files /\
    length files = count_matching entries.
Proof.
  intros Hw. rewrite traverse_directory_run, Hw.
  exists (candidates (walk directory entries)). split; [reflexivity|].
  apply count_walk_entries. apply Forall_forall. intros n _.
  apply count_walk_node.
Qed.

End CountTheorem.

(** ** Walk errors and dry runs, end to end *)

Section EndToEnd.

Context {W : Type} {os : OS W}.

Let state := state (W := W).

(** X14: when the walk raises under a valid root, the run reports the
    error, then reports that nothing was found, and stops: in either mode
    the filesystem is untouched and no rename is issued, even if the walk
    had already yielded candidates. *)
Theorem main_walk_error directory preview items e (s : state) :
  valid_root (fs s) directory = true ->
  os_walk (fs s) directory = (items, Some e) ->
  main directory preview s =
  (Ok tt,
   State (fs s)
         (log s ++ [(INFO, MsgStart directory);
                    (INFO, MsgStartTime (datetime_now (fs s)));
                    (ERROR, MsgWalkError e);
                    (INFO, MsgNothingFound)])
         (calls s ++ [SysWalk directory])).
Proof.
  intros V Hw. rewrite (main_good_root _ _ _ V).
  unfold found, walk_log. rewrite Hw. reflexivity.
Qed.

(** X15: a dry run changes nothing for the run that follows: an execute
    run started after a preview run of the same directory returns the same
    result and ends on the same filesystem as the execute run alone. *)
Theorem preview_then_execute directory (s : state) :
  let s1 := snd (main directory true s) in
  fst (main directory false s1) = fst (main directory false s) /\
  fs (snd (main directory false s1)) = fs (snd (main directory false s)).
Proof.
  intros s1.
  assert (E : fs s1 = fs s).
  { subst s1. destruct (valid_root (fs s) directory) eqn:V.
    - rewrite (main_good_root _ _ _ V).
      destruct (found (fs s) directory) as [|f files]; [reflexivity|].
      now rewrite preview_rename_run.
    - destruct (main_bad_root directory true s V) as [m ->]. reflexivity. }
  clearbody s1.
  destruct (valid_root (fs s) directory) eqn:V.
  - assert (V1 : valid_root (fs s1) directory = true) by now rewrite E.
    rewrite (main_good_root _ _ _ V), (main_good_root _ _ _ V1), E.
    destruct (found (fs s) directory) as [|f files]; [split; reflexivity|].
    rewrite !execute_rename_outcome. cbn [fst snd fs]. split; reflexivity.
  - assert (V1 : valid_root (fs s1) directory = false) by now rewrite E.
    destruct (main_bad_root directory false s V) as [m ->].
    destruct (main_bad_root directory false s1 V1) as [m1 ->].
    cbn [fst snd fs]. auto.
Qed.

End EndToEnd.

(** ** Witnesses on the reference filesystem *)

Section MoreRuns.

Lemma main_execute_summary_witness :
  let s := start (sample_world sample_entries) in
  (valid_root (fs s) (lit "/tmp/r") = true /\ found (fs s) (lit "/tmp/r") <> []) /\
  exists success_count error_count s' earlier,
    main (lit "/tmp/r") false s = (Ok tt, s') /\
    log s' = earlier ++ [(INFO, MsgExecuteEnd);
                         (INFO, MsgSuccessCount success_count);
                         (INFO, MsgErrorCount error_count);
                         (INFO, MsgEndTime (datetime_now (fs s')))] /\
    success_count + error_count = length (found (fs s) (lit "/tmp/r")).
Proof.
  assert (V : valid_root (fs (start (sample_world sample_entries))) (lit "/tmp/r") = true)
    by reflexivity.
  assert (N : found (fs (start (sample_world sample_entries))) (lit "/tmp/r") <> [])
    by (vm_compute; discriminate).
  split; [split; assumption|].
  exact (main_execute_summary (lit "/tmp/r") (start (sample_world sample_entries)) V N).
Defined.

Lemma execute_rename_stays_in_directory_witness :
  let s := start (sample_world sample_entries) in
  let files := [lit "/tmp/r/a/report.adoc.docx"] in
  let src := lit "/tmp/r/a/report.adoc.docx" in
  let dst := lit "/tmp/r/a/report.docx" in
  In (SysRename src dst) (calls (snd (execute_rename files s))) /\
  (In (SysRename src dst) (calls s) \/
   (In src files /\ dst = generate_new_filename src /\ dirname dst = dirname src)).
Proof.
  assert (H : In (SysRename (lit "/tmp/r/a/report.adoc.docx") (lit "/tmp/r/a/report.docx"))
                 (calls (snd (execute_rename [lit "/tmp/r/a/report.adoc.docx"]
                                (start (sample_world sample_entries))))))
    by (left; reflexivity).
  split; [exact H|].
  exact (execute_rename_stays_in_directory
           [lit "/tmp/r/a/report.adoc.docx"] (start (sample_world sample_entries))
           (lit "/tmp/r/a/report.adoc.docx") (lit "/tmp/r/a/report.docx") H).
Defined.

Lemma execute_rename_all_fail_witness :
  let s := start (sample_world sample_entries) in
  let files := [lit "/tmp/r/a/missing.adoc.docx"; lit "/tmp/gone/x.adoc.docx"] in
  (forall old, In old files ->
     exists e, os_rename (fs s) old (generate_new_filename old) = inr e) /\
  exists lines,
    execute_rename files s =
    (Ok tt,
     State (fs s)
           (log s ++ [(INFO, MsgExecuteBegin)] ++ lines
                  ++ [(INFO, MsgExecuteEnd);
                      (INFO, MsgSuccessCount 0);
                      (INFO, MsgErrorCount (length files))])
           (calls s ++ rename_calls files)) /\
    length lines = length files /\
    forallb is_rename_failed lines = true.
Proof.
  assert (H : forall old,
             In old [lit "/tmp/r/a/missing.adoc.docx"; lit "/tmp/gone/x.adoc.docx"] ->
             exists e, os_rename (fs (start (sample_world sample_entries))) old
                                 (generate_new_filename old) = inr e).
  { intros old [<-|[<-|[]]]; eexists; reflexivity. }
  split; [exact H|].
  exact (execute_rename_all_fail
           [lit "/tmp/r/a/missing.adoc.docx"; lit "/tmp/gone/x.adoc.docx"]
           (start (sample_world sample_entries)) H).
Defined.

Lemma candidates_get_new_names_witness :
  let items := walk (lit "/tmp/r") sample_entries in
  let p := lit "/tmp/r/c/summary.adoc.docx" in
  (Forall (fun item => Forall sep_free (walk_files item)) items /\
   In p (candidates items)) /\
  selected p = true /\
  generate_new_filename p <> p /\
  endswith (basename (generate_new_filename p)) new_suffix = true /\
  length (basename (generate_new_filename p)) + 5 <= length (basename p).
Proof.
  assert (H1 : Forall (fun item => Forall sep_free (walk_files item))
                      (walk (lit "/tmp/r") sample_entries))
    by (repeat constructor).
  assert (H2 : In (lit "/tmp/r/c/summary.adoc.docx")
                  (candidates (walk (lit "/tmp/r") sample_entries)))
    by (right; left; reflexivity).
  split; [split; assumption|].
  exact (candidates_get_new_names (walk (lit "/tmp/r") sample_entries)
           (lit "/tmp/r/c/summary.adoc.docx") H1 H2).
Defined.

Lemma generate_new_filename_keeps_other_names_witness :
  let p := lit "r//b/notes.txt" in
  ~ occurs old_suffix (basename p) /\
  dirname (generate_new_filename p) = dirname p /\
  basename (generate_new_filename p) = basename p.
Proof.
  assert (H : ~ occurs old_suffix (basename (lit "r//b/notes.txt")))
    by (apply not_occurs_short; vm_compute; lia).
  split; [exact H|].
  exact (generate_new_filename_keeps_other_names (lit "r//b/notes.txt") H).
Defined.

Lemma generate_new_filename_settles_witness :
  let p := lit "/tmp/r/a.adoc.docx" in
  ~ occurs old_suffix (basename (generate_new_filename p)) /\
  generate_new_filename (generate_new_filename p) = generate_new_filename p.
Proof.
  assert (H : ~ occurs old_suffix
                (basename (generate_new_filename (lit "/tmp/r/a.adoc.docx"))))
    by (apply not_occurs_short; vm_compute; lia).
  split; [exact H|].
  exact (generate_new_filename_settles (lit "/tmp/r/a.adoc.docx") H).
Defined.

Lemma traverse_directory_counts_matching_files_witness :
  let s := start (sample_world sample_entries) in
  os_walk (fs s) (lit "/tmp/r") = (walk (lit "/tmp/r") sample_entries, None) /\
  count_matching sample_entries = 2 /\
  exists files,
    fst (traverse_directory (lit "/tmp/r") s) = Ok files /\
    length files = count_matching sample_entries.
Proof.
  split; [reflexivity|]. split; [reflexivity|].
  exact (traverse_directory_counts_matching_files
           (lit "/tmp/r") sample_entries (start (sample_world sample_entries))
           eq_refl).
Defined.

Lemma main_walk_error_witness :
  let s := start faulty_world in
  let e := lit "maximum recursion depth exceeded" in
  let items := firstn 2 (walk (lit "/tmp/r") sample_entries) in
  (valid_root (fs s) (lit "/tmp/r") = true /\
   os_walk (fs s) (lit "/tmp/r") = (items, Some e) /\
   candidates items = [lit "/tmp/r/a/report.adoc.docx"]) /\
  main (lit "/tmp/r") false s =
  (Ok tt,
   State (fs s)
         (log s ++ [(INFO, MsgStart (lit "/tmp/r"));
                    (INFO, MsgStartTime (datetime_now (fs s)));
                    (ERROR, MsgWalkError e);
                    (INFO, MsgNothingFound)])
         (calls s ++ [SysWalk (lit "/tmp/r")])).
Proof.
  split; [repeat split; reflexivity|].
  exact (main_walk_error (lit "/tmp/r") false
           (firstn 2 (walk (lit "/tmp/r") sample_entries))
           (lit "maximum recursion depth exceeded") (start faulty_world)
           eq_refl eq_refl).
Defined.

End MoreRuns.

(** ** The run after an execute run *)

Section ReverseScan.

Variables old new : str.
Hypothesis old_nonempty : old <> [].

Lemma endswith_false_app a b :
  endswith (a ++ b) old = false -> endswith b old = false.
Proof.
  intros H. destruct (endswith b old) eqn:E; [|reflexivity].
  apply endswith_spec in E as [pre ->].
  rewrite app_assoc, endswith_app in H. discriminate.
Qed.

(** A last character that completes no occurrence of [old] is kept, and
    what precedes it is transformed on its own. *)
Lemma replace_snoc c u :
  endswith (u ++ [c]) old = false ->
  replace old new (u ++ [c]) = replace old new u ++ [c].
Proof.
  pattern u, (replace old new u). apply replace_scan_ind; [exact old_nonempty| | |].
  - intros H. cbn [app].
    destruct (strip_prefix old [c]) as [rest|] eqn:E.
    + apply strip_prefix_spec in E.
      assert (T : endswith ([] ++ [c]) old = true).
      { apply endswith_spec. exists [].
        destruct old as [|o [|o' old']]; [congruence| |].
        - injection E as -> <-. reflexivity.
        - discriminate E. }
      rewrite T in H. discriminate.
    + rewrite replace_miss by assumption. now rewrite replace_nil.
  - intros rest IH H. rewrite <- !app_assoc in *.
    rewrite replace_hit by exact old_nonempty.
    rewrite IH; [reflexivity|]. exact (endswith_false_app _ _ H).
  - intros c0 t E IH H.
    assert (E' : strip_prefix old (c0 :: t ++ [c]) = None).
    { destruct (strip_prefix old (c0 :: t ++ [c])) as [rest|] eqn:S; [|reflexivity].
      apply strip_prefix_spec in S.
      destruct rest as [|r rest].
      - rewrite app_nil_r in S.
        assert (T : endswith ((c0 :: t) ++ [c]) old = true).
        { apply endswith_spec. exists []. exact S. }
        rewrite T in H. discriminate.
      - destruct (@exists_last _ (r :: rest)) as [r' [c' R]]; [discriminate|].
        rewrite R, app_assoc in S.
        change (c0 :: t ++ [c]) with ((c0 :: t) ++ [c]) in S.
        apply app_inj_tail in S as [S _].
        apply strip_prefix_spec in S. congruence. }
    cbn [app]. rewrite replace_miss by assumption.
    rewrite IH; [reflexivity|].
    exact (endswith_false_app [c0] (t ++ [c]) H).
Qed.

End ReverseScan.

Section SecondRunStrings.

(** What the transformed name ends with, when it holds no [x], the name
    ended with already: such an ending cannot come out of a [.docx] that
    [replace] wrote. *)
Lemma endswith_replace_without_x : forall n s ending,
  length s <= n ->
  ~ In "x"%char ending ->
  endswith (replace old_suffix new_suffix s) ending = true ->
  endswith s ending = true.
Proof.
  induction n as [|n IH]; intros s ending Hlen Hx H.
  - destruct s; [|simpl in Hlen; lia].
    now rewrite replace_nil in H by exact old_suffix_nonempty.
  - destruct s as [|c0 s0] eqn:Es.
    { now rewrite replace_nil in H by exact old_suffix_nonempty. }
    rewrite <- Es in *.
    destruct ending as [|d0 ending0] eqn:Ee.
    { apply endswith_spec. exists s. now rewrite app_nil_r. }
    rewrite <- Ee in *.
    destruct (@exists_last _ ending) as [ending' [d Hd]]; [now rewrite Ee|].
    assert (Hd' : ~ In "x"%char ending' /\ d <> "x"%char).
    { rewrite Hd in Hx. split; intro; apply Hx; apply in_or_app; [now left|].
      right. now left. }
    destruct Hd' as [Hx' Hdx].
    destruct (endswith s old_suffix) eqn:E.
    + apply endswith_spec in E as [x E]. rewrite E, replace_old_suffix in H.
      apply endswith_spec in H as [pre H]. rewrite Hd in H.
      change new_suffix with (lit ".doc" ++ ["x"%char]) in H.
      rewrite !app_assoc in H. apply app_inj_tail in H as [_ H]. congruence.
    + destruct (@exists_last _ s) as [u [c Hu]]; [now rewrite Es|].
      rewrite Hu in E, H |- *.
      rewrite replace_snoc in H by (exact old_suffix_nonempty || exact E).
      apply endswith_spec in H as [pre H]. rewrite Hd in H |- *.
      rewrite app_assoc in H. apply app_inj_tail in H as [H ->].
      assert (L : length u <= n).
      { rewrite Hu, length_app in Hlen. simpl in Hlen. lia. }
      assert (Eu : endswith u ending' = true).
      { apply (IH u ending' L Hx'). apply endswith_spec. eauto. }
      apply endswith_spec in Eu as [q ->].
      rewrite <- app_assoc. apply endswith_app.
Qed.

(** A transformed name ends in [.adoc.docx] only if the name ended in
    [.adoc.adoc.docx]. *)
Lemma endswith_old_suffix_replace s :
  endswith (replace old_suffix new_suffix s) old_suffix = true ->
  endswith s (adoc ++ old_suffix) = true.
Proof.
  intros H. destruct (endswith s old_suffix) eqn:E.
  - now apply endswith_replace_iff.
  - exfalso. destruct s as [|c0 s0] eqn:Es.
    { now rewrite replace_nil in H by exact old_suffix_nonempty. }
    rewrite <- Es in *.
    destruct (@exists_last _ s) as [u [c Hu]]; [now rewrite Es|].
    rewrite Hu in E, H.
    rewrite replace_snoc in H by (exact old_suffix_nonempty || exact E).
    apply endswith_spec in H as [pre H].
    change old_suffix with (lit ".adoc.doc" ++ ["x"%char]) in H.
    rewrite app_assoc in H. apply app_inj_tail in H as [H ->].
    assert (Eu : endswith u (lit ".adoc.doc") = true).
    { apply (endswith_replace_without_x (length u) u (lit ".adoc.doc")).
      - lia.
      - vm_compute. intuition discriminate.
      - apply endswith_spec. eauto. }
    apply endswith_spec in Eu as [q ->].
    rewrite <- app_assoc in E.
    change (lit ".adoc.doc" ++ ["x"%char]) with old_suffix in E.
    rewrite endswith_app in E. discriminate.
Qed.

(** The new path of a path whose filename does not end in
    [.adoc.adoc.docx] is rejected by the traversal's test. *)
Lemma new_name_not_selected p :
  endswith (basename p) (lit ".adoc.adoc.docx") = false ->
  selected (generate_new_filename p) = false.
Proof.
  intros H. unfold selected. rewrite generate_new_filename_basename.
  destruct (endswith (replace old_suffix new_suffix (basename p)) old_suffix) eqn:E;
    [|reflexivity].
  apply endswith_old_suffix_replace in E.
  change (adoc ++ old_suffix) with (lit ".adoc.adoc.docx") in E. congruence.
Qed.

Lemma candidates_nil items :
  (forall item name, In item items -> In name (walk_files item) ->
                     endswith name old_suffix = false) ->
  candidates items = [].
Proof.
  intros H. destruct (candidates items) as [|p l] eqn:E; [reflexivity|].
  assert (Hin : In p (candidates items)) by (rewrite E; now left).
  apply in_candidates in Hin as [name [[item [Hi [Hn _]]] He]].
  rewrite (H item name Hi Hn) in He. discriminate.
Qed.

End SecondRunStrings.

Section SecondRun.

Context {W : Type} {os : OS W}.

(** C2, amended: for a filename ending in [.adoc.docx], the filename
    produced by [generate_new_filename] ends in [.adoc.docx] exactly when
    the old one ended in [.adoc.adoc.docx].  Hence, after one execute run
    in which no candidate's filename ended in [.adoc.adoc.docx], if the
    next walk of the directory lists only names that do not end in
    [.adoc.docx] and new filenames of that run's candidates (as it does
    when every rename succeeded), the second run's traversal selects no
    candidate, and the second run, in either mode, issues no rename and
    leaves the filesystem as it is. *)
Theorem second_run_selects_nothing directory (s : state (W := W)) :
  let files := if valid_root (fs s) directory then found (fs s) directory else [] in
  let s1 := snd (main directory false s) in
  (forall old, In old files ->
     endswith (basename old) (lit ".adoc.adoc.docx") = false) ->
  (forall item name,
     In item (fst (os_walk (fs s1) directory)) -> In name (walk_files item) ->
     endswith name old_suffix = false \/
     exists old, In old files /\ name = basename (generate_new_filename old)) ->
  (forall p, endswith (basename p) old_suffix = true ->
     (endswith (basename (generate_new_filename p)) old_suffix = true <->
      endswith (basename p) (lit ".adoc.adoc.docx") = true)) /\
  fst (traverse_directory directory s1) = Ok [] /\
  forall preview,
    fs (snd (main directory preview s1)) = fs s1 /\
    calls (snd (main directory preview s1)) =
      calls s1 ++ (if valid_root (fs s1) directory then [SysWalk directory] else []).
Proof.
  intros files s1 Hold Hwalk. split.
  { intros p Hp. rewrite generate_new_filename_basename.
    now apply endswith_replace_iff. }
  assert (F : found (fs s1) directory = []).
  { unfold found.
    destruct (os_walk (fs s1) directory) as [items [e|]] eqn:Hw; [reflexivity|].
    apply candidates_nil. intros item name Hi Hn.
    destruct (Hwalk item name Hi Hn) as [E|[old [Ho ->]]]; [exact E|].
    apply (new_name_not_selected old). now apply Hold. }
  split.
  - rewrite traverse_directory_found, F. reflexivity.
  - intros preview. destruct (valid_root (fs s1) directory) eqn:V.
    + rewrite (main_good_root _ _ _ V), F. split; reflexivity.
    + destruct (main_bad_root directory preview s1 V) as [m ->].
      cbn [snd fs calls]. now rewrite app_nil_r.
Qed.

End SecondRun.

Lemma second_run_selects_nothing_witness :
  let s := start (sample_world sample_entries) in
  let directory := lit "/tmp/r" in
  let files := if valid_root (fs s) directory then found (fs s) directory else [] in
  let s1 := snd (main directory false s) in
  files = [lit "/tmp/r/a/report.adoc.docx"; lit "/tmp/r/c/summary.adoc.docx"] /\
  ((forall old, In old files ->
      endswith (basename old) (lit ".adoc.adoc.docx") = false) /\
   (forall item name,
      In item (fst (os_walk (fs s1) directory)) -> In name (walk_files item) ->
      endswith name old_suffix = false \/
      exists old, In old files /\ name = basename (generate_new_filename old))) /\
  fst (traverse_directory directory s1) = Ok [] /\
  forall preview,
    fs (snd (main directory preview s1)) = fs s1 /\
    calls (snd (main directory preview s1)) =
      calls s1 ++ (if valid_root (fs s1) directory then [SysWalk directory] else []).
Proof.
  assert (H1 : forall old,
             In old (if valid_root (fs (start (sample_world sample_entries))) (lit "/tmp/r")
                     then found (fs (start (sample_world sample_entries))) (lit "/tmp/r")
                     else []) ->
             endswith (basename old) (lit ".adoc.adoc.docx") = false).
  { intros old Hin. vm_compute in Hin.
    destruct Hin as [<-|[<-|[]]]; reflexivity. }
  assert (H2 : forall item name,
             In item (fst (os_walk
                             (fs (snd (main (lit "/tmp/r") false
                                         (start (sample_world sample_entries)))))
                             (lit "/tmp/r"))) ->
             In name (walk_files item) ->
             endswith name old_suffix = false \/
             exists old,
               In old (if valid_root (fs (start (sample_world sample_entries))) (lit "/tmp/r")
                       then found (fs (start (sample_world sample_entries))) (lit "/tmp/r")
                       else []) /\
               name = basename (generate_new_filename old)).
  { intros item name Hi Hn. vm_compute in Hi.
    destruct Hi as [<-|[<-|[<-|[<-|[]]]]]; vm_compute in Hn.
    - destruct Hn.
    - destruct Hn as [<-|[]].
      right. exists (lit "/tmp/r/a/report.adoc.docx"). split; [left|]; reflexivity.
    - destruct Hn as [<-|[]]. left. reflexivity.
    - destruct Hn as [<-|[]].
      right. exists (lit "/tmp/r/c/summary.adoc.docx").
      split; [right; left|]; reflexivity. }
  split; [reflexivity|]. split; [split; assumption|].
  exact (proj2 (second_run_selects_nothing (lit "/tmp/r")
                  (start (sample_world sample_entries)) H1 H2)).
Defined.
